(** * Language flashcards: the authorization-scoped CRUD and review-log actions

    A shallow embedding of [src/actions/index.ts] and of the table
    declarations of [db/tables.ts].  The relational store is a record of
    four row lists; the action handlers are programs of a state-and-error
    monad over it.  Timestamps are integers (milliseconds), integer inputs
    are [Z], text is [string]. *)

From Stdlib Require Import ZArith String SpecFloat.
From stdpp Require Import base tactics decidable option numbers list strings.

Local Open Scope Z_scope.
Local Open Scope string_scope.
Local Open Scope list_scope.

(** ** Values *)

(** A JavaScript [Date], as milliseconds since the epoch. *)
Definition Date := Z.

(** A JavaScript [number] that zod did not restrict to integers. *)
Definition number := spec_float.

Inductive Level := A1 | A2 | B1 | B2 | C1 | C2 | mixed.

Inductive Rating := again | hard | good | easy.

(** The payload of a [column.json] cell, [z.record(z.any())] on input. *)
#[local] Unset Elimination Schemes.
Inductive JsonValue :=
| JNull
| JBool (b : bool)
| JNumber (x : number)
| JString (s : string)
| JArray (xs : list JsonValue)
| JObject (fields : list (string * JsonValue)).
#[local] Set Elimination Schemes.

Definition JsonRecord := list (string * JsonValue).

(** What the query builder does with a key of the [.set({...})] object whose
    value is [undefined].  The query builder ([astro:db]) is not part of the
    sources, so both readings are kept: the key is left out of the UPDATE
    ([skip_undefined], what the query builder does: it ignores values of
    [undefined] in [.set] and wants [null] for a NULL), or the column is
    written as NULL ([null_undefined], the reading of the spec). *)
Inductive UndefinedPolicy := skip_undefined | null_undefined.

(** The new content of a nullable column; [v = None] is a key whose value is
    [undefined]. *)
Definition write_nullable {A} (undef : UndefinedPolicy)
    (v : option (option A)) (old : option A) : option A :=
  match v with
  | Some x => x
  | None => match undef with skip_undefined => old | null_undefined => None end
  end.

(** ** Tables ([db/tables.ts]) *)

Module VocabDecks.
Record row := {
  id : Z;
  ownerId : string;
  title : string;
  description : option string;
  fromLanguage : string;
  toLanguage : string;
  level : Level;
  tags : option string;
  isActive : bool;
  createdAt : Date;
  updatedAt : Date }.

(** One key of the object given to [.set]. *)
Inductive assignment :=
| set_title (v : string)
| set_description (v : option (option string))
| set_fromLanguage (v : string)
| set_toLanguage (v : string)
| set_level (v : Level)
| set_tags (v : option (option string))
| set_isActive (v : bool)
| set_updatedAt (v : Date).

Definition assign (undef : UndefinedPolicy) (r : row) (a : assignment) : row :=
  {| id := id r;
     ownerId := ownerId r;
     title := match a with set_title v => v | _ => title r end;
     description :=
       match a with
       | set_description v => write_nullable undef v (description r)
       | _ => description r
       end;
     fromLanguage := match a with set_fromLanguage v => v | _ => fromLanguage r end;
     toLanguage := match a with set_toLanguage v => v | _ => toLanguage r end;
     level := match a with set_level v => v | _ => level r end;
     tags :=
       match a with
       | set_tags v => write_nullable undef v (tags r)
       | _ => tags r
       end;
     isActive := match a with set_isActive v => v | _ => isActive r end;
     createdAt := createdAt r;
     updatedAt := match a with set_updatedAt v => v | _ => updatedAt r end |}.
End VocabDecks.

Module VocabCards.
Record row := {
  id : Z;
  deckId : Z;
  displayOrder : Z;
  term : string;
  translation : string;
  transliteration : option string;
  partOfSpeech : option string;
  gender : option string;
  exampleSentence : option string;
  exampleTranslation : option string;
  phonetic : option string;
  audioUrl : option string;
  tags : option string;
  isActive : bool }.

Inductive assignment :=
| set_deckId (v : Z)
| set_displayOrder (v : Z)
| set_term (v : string)
| set_translation (v : string)
| set_transliteration (v : option (option string))
| set_partOfSpeech (v : option (option string))
| set_gender (v : option (option string))
| set_exampleSentence (v : option (option string))
| set_exampleTranslation (v : option (option string))
| set_phonetic (v : option (option string))
| set_audioUrl (v : option (option string))
| set_tags (v : option (option string))
| set_isActive (v : bool).

Definition assign (undef : UndefinedPolicy) (r : row) (a : assignment) : row :=
  {| id := id r;
     deckId := match a with set_deckId v => v | _ => deckId r end;
     displayOrder := match a with set_displayOrder v => v | _ => displayOrder r end;
     term := match a with set_term v => v | _ => term r end;
     translation := match a with set_translation v => v | _ => translation r end;
     transliteration :=
       match a with
       | set_transliteration v => write_nullable undef v (transliteration r)
       | _ => transliteration r
       end;
     partOfSpeech :=
       match a with
       | set_partOfSpeech v => write_nullable undef v (partOfSpeech r)
       | _ => partOfSpeech r
       end;
     gender :=
       match a with
       | set_gender v => write_nullable undef v (gender r)
       | _ => gender r
       end;
     exampleSentence :=
       match a with
       | set_exampleSentence v => write_nullable undef v (exampleSentence r)
       | _ => exampleSentence r
       end;
     exampleTranslation :=
       match a with
       | set_exampleTranslation v => write_nullable undef v (exampleTranslation r)
       | _ => exampleTranslation r
       end;
     phonetic :=
       match a with
       | set_phonetic v => write_nullable undef v (phonetic r)
       | _ => phonetic r
       end;
     audioUrl :=
       match a with
       | set_audioUrl v => write_nullable undef v (audioUrl r)
       | _ => audioUrl r
       end;
     tags :=
       match a with
       | set_tags v => write_nullable undef v (tags r)
       | _ => tags r
       end;
     isActive := match a with set_isActive v => v | _ => isActive r end |}.
End VocabCards.

Module VocabStudySessions.
Record row := {
  id : Z;
  deckId : Z;
  userId : option string;
  startedAt : Date;
  completedAt : option Date;
  totalCardsSeen : Z;
  correctCount : Z;
  wrongCount : Z;
  summary : option JsonRecord;
  createdAt : Date }.

Inductive assignment :=
| set_totalCardsSeen (v : Z)
| set_correctCount (v : Z)
| set_wrongCount (v : Z)
| set_summary (v : option (option JsonRecord))
| set_completedAt (v : option (option Date)).

Definition assign (undef : UndefinedPolicy) (r : row) (a : assignment) : row :=
  {| id := id r;
     deckId := deckId r;
     userId := userId r;
     startedAt := startedAt r;
     completedAt :=
       match a with
       | set_completedAt v => write_nullable undef v (completedAt r)
       | _ => completedAt r
       end;
     totalCardsSeen := match a with set_totalCardsSeen v => v | _ => totalCardsSeen r end;
     correctCount := match a with set_correctCount v => v | _ => correctCount r end;
     wrongCount := match a with set_wrongCount v => v | _ => wrongCount r end;
     summary :=
       match a with
       | set_summary v => write_nullable undef v (summary r)
       | _ => summary r
       end;
     createdAt := createdAt r |}.
End VocabStudySessions.

Module VocabReviews.
Record row := {
  id : Z;
  deckId : Z;
  cardId : Z;
  userId : option string;
  sessionId : option Z;
  rating : Rating;
  reviewedAt : Date;
  dueAt : option Date;
  intervalDays : Z;
  easeFactor : option number }.
End VocabReviews.

(** ** The store *)

Record Db := {
  decks : list VocabDecks.row;
  cards : list VocabCards.row;
  sessions : list VocabStudySessions.row;
  reviews : list VocabReviews.row }.

Definition empty_db : Db :=
  {| decks := []; cards := []; sessions := []; reviews := [] |}.

(** A table of the store: where its rows live and which column is the
    auto-incremented primary key. *)
Record Table (R : Type) := {
  rows : Db → list R;
  with_rows : list R → Db → Db;
  pk : R → Z }.
Arguments rows {R}.
Arguments with_rows {R}.
Arguments pk {R}.

Definition VocabDecks_table : Table VocabDecks.row :=
  {| rows := decks;
     with_rows := λ l s,
       {| decks := l; cards := cards s; sessions := sessions s; reviews := reviews s |};
     pk := VocabDecks.id |}.

Definition VocabCards_table : Table VocabCards.row :=
  {| rows := cards;
     with_rows := λ l s,
       {| decks := decks s; cards := l; sessions := sessions s; reviews := reviews s |};
     pk := VocabCards.id |}.

Definition VocabStudySessions_table : Table VocabStudySessions.row :=
  {| rows := sessions;
     with_rows := λ l s,
       {| decks := decks s; cards := cards s; sessions := l; reviews := reviews s |};
     pk := VocabStudySessions.id |}.

Definition VocabReviews_table : Table VocabReviews.row :=
  {| rows := reviews;
     with_rows := λ l s,
       {| decks := decks s; cards := cards s; sessions := sessions s; reviews := l |};
     pk := VocabReviews.id |}.

(** ** Errors and the action monad *)

(** The four codes the handlers and the refinement of [updateDeck] raise,
    and the failure of a declarative input constraint. *)
Inductive ErrorCode :=
| UNAUTHORIZED
| NOT_FOUND
| FORBIDDEN
| INVALID_ARGUMENT
| VALIDATION_FAILED.

Record ActionError := { code : ErrorCode; message : string }.

Inductive Outcome (A : Type) :=
| Ok (a : A)
| Throw (e : ActionError).
Arguments Ok {A}.
Arguments Throw {A}.

(** A handler step: it reads and writes the store and either returns or
    throws.  A write made before a throw stays (no transaction). *)
Definition Action (A : Type) := Db → Outcome A * Db.

Definition ret {A} (a : A) : Action A := λ s, (Ok a, s).

Definition throw {A} (e : ActionError) : Action A := λ s, (Throw e, s).

Definition bind {A B} (m : Action A) (k : A → Action B) : Action B :=
  λ s, match m s with
       | (Ok a, s') => k a s'
       | (Throw e, s') => (Throw e, s')
       end.

Notation "'let*' x ':=' m 'in' k" := (bind m (λ x, k))
  (at level 10, x name, m at level 100, k at level 200).

(** ** The query builder

    The relational store and its query builder ([astro:db]) are outside the
    sources.  The spec (section 6) asks of them select, insert and update with
    equality and conjunction predicates, auto-incremented integer keys, and
    the inserted or updated rows as the result. *)

(** Modelled from the spec: the next value of an auto-incremented key, one
    more than the largest key in use, 1 in an empty table (no operation
    deletes a row). *)
Definition autoIncrement (keys : list Z) : Z := Z.succ (foldr Z.max 0 keys).

(** Modelled from the spec: [db.select().from(T).where(P)], the rows of [T]
    that satisfy [P].  The model hands them over in table order; the source
    asks for no order (no handler has an orderBy) and the spec leaves the
    order of a listing open, so only the rows and their number are meant. *)
Definition db_select {R} (T : Table R) (P : R → Prop) `{!∀ r, Decision (P r)}
    : Action (list R) :=
  λ s, (Ok (filter P (rows T s)), s).

(** Modelled from the spec: [db.insert(T).values(v).returning()]; the row
    is appended under a fresh key, which [values] awaits, and returned. *)
Definition db_insert {R} (T : Table R) (values : Z → R) : Action (list R) :=
  λ s, let r := values (autoIncrement (pk T <$> rows T s)) in
       (Ok [r], with_rows T (rows T s ++ [r]) s).

(** Modelled from the spec: [db.update(T).set(f).where(P).returning()];
    every row that satisfies [P] is rewritten by [f], and these rows are
    returned. *)
Definition db_update {R} (T : Table R) (set : R → R) (P : R → Prop)
    `{!∀ r, Decision (P r)} : Action (list R) :=
  λ s, (Ok (set <$> filter P (rows T s)),
        with_rows T ((λ r, if decide (P r) then set r else r) <$> rows T s) s).

(** The object given to [.set], key by key; a later key wins. *)
Definition set_decks (undef : UndefinedPolicy) (o : list VocabDecks.assignment)
    (r : VocabDecks.row) : VocabDecks.row :=
  foldl (VocabDecks.assign undef) r o.

Definition set_cards (undef : UndefinedPolicy) (o : list VocabCards.assignment)
    (r : VocabCards.row) : VocabCards.row :=
  foldl (VocabCards.assign undef) r o.

Definition set_sessions (undef : UndefinedPolicy)
    (o : list VocabStudySessions.assignment)
    (r : VocabStudySessions.row) : VocabStudySessions.row :=
  foldl (VocabStudySessions.assign undef) r o.

(** ** Request context *)

(** Modelled from the spec: [App.Locals] is declared outside the sources;
    the identity provider supplies [{ id: string }] or nothing. *)
Module App.
Record User := { id : string }.
Record Locals := { user : option User }.
End App.

Record ActionAPIContext := { locals : option App.Locals }.

(** [context.locals?.user] *)
Definition identity (context : ActionAPIContext) : option App.User :=
  locals context ≫= App.user.

Definition requireUser (context : ActionAPIContext) : Action App.User :=
  match identity context with
  | None =>
      throw {| code := UNAUTHORIZED;
               message := "You must be signed in to perform this action." |}
  | Some user => ret user
  end.

Definition getDeckForUser (deckId : Z) (userId : string) : Action VocabDecks.row :=
  let* found := db_select VocabDecks_table (λ r, VocabDecks.id r = deckId) in
  match head found with
  | None => throw {| code := NOT_FOUND; message := "Deck not found." |}
  | Some deck =>
      if decide (VocabDecks.ownerId deck ≠ userId)
      then throw {| code := FORBIDDEN;
                    message := "You do not have access to this deck." |}
      else ret deck
  end.

(** ** Helpers for the JavaScript idioms of the handlers *)

(** [if (v)] on an optional integer: [undefined] and [0] are falsy.  The
    result is the integer the true branch sees. *)
Definition truthy (v : option Z) : option Z :=
  match v with
  | Some n => if Z.eqb n 0 then None else Some n
  | None => None
  end.

(** [...(v !== undefined ? { key: v } : {})] *)
Definition spread {A K} (v : option A) (key : A → K) : list K :=
  match v with
  | Some x => [key x]
  | None => []
  end.

(** A possibly-[undefined] text given for a nullable column. *)
Definition optional {A} (v : option A) : option (option A) := Some <$> v.

(** [z.string().min(1)] *)
Definition min1 (s : string) : bool := negb (String.eqb s "").

(** The uniform result envelope, [{ success: true, data }]. *)
Record Envelope (A : Type) := { success : bool; data : A }.
Arguments success {A}.
Arguments data {A}.

(** [{ items, total }] *)
Record Page (R : Type) := { items : list R; total : nat }.
Arguments items {R}.
Arguments total {R}.

(** Modelled from the spec: the dispatch of [astro:actions] ([defineAction])
    is outside the sources.  The declarative input constraints run before the
    handler (spec 7); a failed constraint is raised to the caller and the
    handler is not entered. *)
Definition defineAction {I P O} (input : I → Outcome P)
    (handler : P → ActionAPIContext → Date → Action O)
    : I → ActionAPIContext → Date → Action O :=
  λ raw context now,
    match input raw with
    | Throw e => throw e
    | Ok parsed => handler parsed context now
    end.

Definition invalid (field : string) : ActionError :=
  {| code := VALIDATION_FAILED; message := field |}.

(** ** Deck actions *)

Module createDeck.
Record input := {
  title : string;
  description : option string;
  fromLanguage : option string;
  toLanguage : option string;
  level : option Level;
  tags : option string;
  isActive : option bool }.

Definition schema (i : input) : Outcome input :=
  if min1 (title i) then Ok i else Throw (invalid "title").

Definition handler (input : input) (context : ActionAPIContext) (now : Date)
    : Action (Envelope (option VocabDecks.row)) :=
  let* user := requireUser context in
  let* inserted :=
    db_insert VocabDecks_table (λ key,
      {| VocabDecks.id := key;
         VocabDecks.ownerId := App.id user;
         VocabDecks.title := title input;
         VocabDecks.description := description input;
         VocabDecks.fromLanguage := default "en" (fromLanguage input);
         VocabDecks.toLanguage := default "en" (toLanguage input);
         VocabDecks.level := default mixed (level input);
         VocabDecks.tags := tags input;
         VocabDecks.isActive := default true (isActive input);
         VocabDecks.createdAt := now;
         VocabDecks.updatedAt := now |}) in
  ret {| success := true; data := head inserted |}.

Definition action := defineAction schema handler.
End createDeck.

Module updateDeck.
Record input := {
  id : Z;
  title : option string;
  description : option string;
  fromLanguage : option string;
  toLanguage : option string;
  level : option Level;
  tags : option string;
  isActive : option bool }.

(** The predicate given to [.refine]. *)
Definition refine (input : input) : bool :=
  bool_decide (title input ≠ None)
  || bool_decide (description input ≠ None)
  || bool_decide (fromLanguage input ≠ None)
  || bool_decide (toLanguage input ≠ None)
  || bool_decide (level input ≠ None)
  || bool_decide (tags input ≠ None)
  || bool_decide (isActive input ≠ None).

(** Modelled from the spec: a failed refinement is reported with the code
    INVALID_ARGUMENT (spec 6); the message is the one of the sources. *)
Definition schema (i : input) : Outcome input :=
  if from_option min1 true (title i) then
    if refine i then Ok i
    else Throw {| code := INVALID_ARGUMENT;
                  message := "At least one field must be provided to update." |}
  else Throw (invalid "title").

(** The object given to [.set]. *)
Definition changes (input : input) (now : Date) : list VocabDecks.assignment :=
  spread (title input) VocabDecks.set_title
  ++ spread (description input) (λ v, VocabDecks.set_description (Some (Some v)))
  ++ spread (fromLanguage input) VocabDecks.set_fromLanguage
  ++ spread (toLanguage input) VocabDecks.set_toLanguage
  ++ spread (level input) VocabDecks.set_level
  ++ spread (tags input) (λ v, VocabDecks.set_tags (Some (Some v)))
  ++ spread (isActive input) VocabDecks.set_isActive
  ++ [VocabDecks.set_updatedAt now].

Definition handler (undef : UndefinedPolicy) (input : input)
    (context : ActionAPIContext) (now : Date)
    : Action (Envelope (option VocabDecks.row)) :=
  let* user := requireUser context in
  let* _ := getDeckForUser (id input) (App.id user) in
  let* updated :=
    db_update VocabDecks_table (set_decks undef (changes input now))
      (λ r, VocabDecks.id r = id input) in
  ret {| success := true; data := head updated |}.

Definition action (undef : UndefinedPolicy) := defineAction schema (handler undef).
End updateDeck.

Module listDecks.
(** The request as sent, before [.default(false)]. *)
Record raw := { raw_includeInactive : option bool }.

Record input := { includeInactive : bool }.

Definition schema (i : option raw) : Outcome (option input) :=
  Ok ((λ r, {| includeInactive := default false (raw_includeInactive r) |}) <$> i).

Definition handler (input : option input) (context : ActionAPIContext) (now : Date)
    : Action (Envelope (Page VocabDecks.row)) :=
  let* user := requireUser context in
  let includeInactive := default false (includeInactive <$> input) in
  let* decks :=
    if includeInactive
    then db_select VocabDecks_table (λ r, VocabDecks.ownerId r = App.id user)
    else db_select VocabDecks_table
           (λ r, VocabDecks.ownerId r = App.id user ∧ VocabDecks.isActive r = true) in
  ret {| success := true; data := {| items := decks; total := length decks |} |}.

Definition action := defineAction schema handler.
End listDecks.

(** ** Card actions *)

Module upsertCard.
Record input := {
  id : option Z;
  deckId : Z;
  displayOrder : option Z;
  term : string;
  translation : string;
  transliteration : option string;
  partOfSpeech : option string;
  gender : option string;
  exampleSentence : option string;
  exampleTranslation : option string;
  phonetic : option string;
  audioUrl : option string;
  tags : option string;
  isActive : option bool }.

Definition schema (i : input) : Outcome input :=
  if min1 (term i) then
    if min1 (translation i) then Ok i else Throw (invalid "translation")
  else Throw (invalid "term").

(** The object given to [.set] on the update path. *)
Definition changes (input : input) (card : VocabCards.row)
    : list VocabCards.assignment :=
  [ VocabCards.set_deckId (deckId input);
    VocabCards.set_displayOrder
      (default (VocabCards.displayOrder card) (displayOrder input));
    VocabCards.set_term (term input);
    VocabCards.set_translation (translation input);
    VocabCards.set_transliteration (optional (transliteration input));
    VocabCards.set_partOfSpeech (optional (partOfSpeech input));
    VocabCards.set_gender (optional (gender input));
    VocabCards.set_exampleSentence (optional (exampleSentence input));
    VocabCards.set_exampleTranslation (optional (exampleTranslation input));
    VocabCards.set_phonetic (optional (phonetic input));
    VocabCards.set_audioUrl (optional (audioUrl input));
    VocabCards.set_tags (optional (tags input));
    VocabCards.set_isActive (default (VocabCards.isActive card) (isActive input)) ].

Definition handler (undef : UndefinedPolicy) (input : input)
    (context : ActionAPIContext) (now : Date)
    : Action (Envelope (option VocabCards.row)) :=
  let* user := requireUser context in
  let* _ := getDeckForUser (deckId input) (App.id user) in
  match truthy (id input) with
  | Some input_id =>
      let* found :=
        db_select VocabCards_table
          (λ r, VocabCards.id r = input_id ∧ VocabCards.deckId r = deckId input) in
      match head found with
      | None => throw {| code := NOT_FOUND; message := "Card not found." |}
      | Some card =>
          let* updated :=
            db_update VocabCards_table (set_cards undef (changes input card))
              (λ r, VocabCards.id r = input_id) in
          ret {| success := true; data := head updated |}
      end
  | None =>
      let* inserted :=
        db_insert VocabCards_table (λ key,
          {| VocabCards.id := key;
             VocabCards.deckId := deckId input;
             VocabCards.displayOrder := default 0 (displayOrder input);
             VocabCards.term := term input;
             VocabCards.translation := translation input;
             VocabCards.transliteration := transliteration input;
             VocabCards.partOfSpeech := partOfSpeech input;
             VocabCards.gender := gender input;
             VocabCards.exampleSentence := exampleSentence input;
             VocabCards.exampleTranslation := exampleTranslation input;
             VocabCards.phonetic := phonetic input;
             VocabCards.audioUrl := audioUrl input;
             VocabCards.tags := tags input;
             VocabCards.isActive := default true (isActive input) |}) in
      ret {| success := true; data := head inserted |}
  end.

Definition action (undef : UndefinedPolicy) := defineAction schema (handler undef).
End upsertCard.

Module listCards.
Record raw := { raw_deckId : Z; raw_includeInactive : option bool }.

Record input := { deckId : Z; includeInactive : bool }.

Definition schema (i : raw) : Outcome input :=
  Ok {| deckId := raw_deckId i;
        includeInactive := default false (raw_includeInactive i) |}.

Definition handler (input : input) (context : ActionAPIContext) (now : Date)
    : Action (Envelope (Page VocabCards.row)) :=
  let* user := requireUser context in
  let* _ := getDeckForUser (deckId input) (App.id user) in
  let* cards :=
    if includeInactive input
    then db_select VocabCards_table (λ r, VocabCards.deckId r = deckId input)
    else db_select VocabCards_table
           (λ r, VocabCards.deckId r = deckId input ∧ VocabCards.isActive r = true) in
  ret {| success := true; data := {| items := cards; total := length cards |} |}.

Definition action := defineAction schema handler.
End listCards.

(** ** Study-session actions *)

Module startStudySession.
Record input := { deckId : Z }.

Definition schema (i : input) : Outcome input := Ok i.

Definition handler (input : input) (context : ActionAPIContext) (now : Date)
    : Action (Envelope (option VocabStudySessions.row)) :=
  let* user := requireUser context in
  let* _ := getDeckForUser (deckId input) (App.id user) in
  let startedAt := now in
  let* inserted :=
    db_insert VocabStudySessions_table (λ key,
      {| VocabStudySessions.id := key;
         VocabStudySessions.deckId := deckId input;
         VocabStudySessions.userId := Some (App.id user);
         VocabStudySessions.startedAt := startedAt;
         VocabStudySessions.completedAt := None;
         VocabStudySessions.totalCardsSeen := 0;
         VocabStudySessions.correctCount := 0;
         VocabStudySessions.wrongCount := 0;
         VocabStudySessions.summary := None;
         VocabStudySessions.createdAt := startedAt |}) in
  ret {| success := true; data := head inserted |}.

Definition action := defineAction schema handler.
End startStudySession.

Module completeStudySession.
Record input := {
  id : Z;
  totalCardsSeen : option Z;
  correctCount : option Z;
  wrongCount : option Z;
  summary : option JsonRecord;
  completedAt : option Date }.

Definition schema (i : input) : Outcome input := Ok i.

(** The object given to [.set]; [a ?? b] is [default b a]. *)
Definition changes (input : input) (session : VocabStudySessions.row) (now : Date)
    : list VocabStudySessions.assignment :=
  [ VocabStudySessions.set_totalCardsSeen
      (default (VocabStudySessions.totalCardsSeen session) (totalCardsSeen input));
    VocabStudySessions.set_correctCount
      (default (VocabStudySessions.correctCount session) (correctCount input));
    VocabStudySessions.set_wrongCount
      (default (VocabStudySessions.wrongCount session) (wrongCount input));
    VocabStudySessions.set_summary
      (Some (default (VocabStudySessions.summary session) (Some <$> summary input)));
    VocabStudySessions.set_completedAt
      (Some (Some (default now (completedAt input)))) ].

Definition handler (undef : UndefinedPolicy) (input : input)
    (context : ActionAPIContext) (now : Date)
    : Action (Envelope (option VocabStudySessions.row)) :=
  let* user := requireUser context in
  let* found :=
    db_select VocabStudySessions_table
      (λ r, VocabStudySessions.id r = id input
            ∧ VocabStudySessions.userId r = Some (App.id user)) in
  match head found with
  | None => throw {| code := NOT_FOUND; message := "Study session not found." |}
  | Some session =>
      let* updated :=
        db_update VocabStudySessions_table
          (set_sessions undef (changes input session now))
          (λ r, VocabStudySessions.id r = id input) in
      ret {| success := true; data := head updated |}
  end.

Definition action (undef : UndefinedPolicy) := defineAction schema (handler undef).
End completeStudySession.

(** ** Review action *)

Module logReview.
(** The request as sent, before [.default("good")]. *)
Record raw := {
  raw_deckId : Z;
  raw_cardId : Z;
  raw_sessionId : option Z;
  raw_rating : option Rating;
  raw_reviewedAt : option Date;
  raw_dueAt : option Date;
  raw_intervalDays : option Z;
  raw_easeFactor : option number }.

Record input := {
  deckId : Z;
  cardId : Z;
  sessionId : option Z;
  rating : Rating;
  reviewedAt : option Date;
  dueAt : option Date;
  intervalDays : option Z;
  easeFactor : option number }.

Definition schema (i : raw) : Outcome input :=
  Ok {| deckId := raw_deckId i;
        cardId := raw_cardId i;
        sessionId := raw_sessionId i;
        rating := default good (raw_rating i);
        reviewedAt := raw_reviewedAt i;
        dueAt := raw_dueAt i;
        intervalDays := raw_intervalDays i;
        easeFactor := raw_easeFactor i |}.

Definition handler (input : input) (context : ActionAPIContext) (now : Date)
    : Action (Envelope (option VocabReviews.row)) :=
  let* user := requireUser context in
  let* _ := getDeckForUser (deckId input) (App.id user) in
  let* found :=
    db_select VocabCards_table
      (λ r, VocabCards.id r = cardId input ∧ VocabCards.deckId r = deckId input) in
  match head found with
  | None => throw {| code := NOT_FOUND; message := "Card not found for this deck." |}
  | Some card =>
      let* _ :=
        match truthy (sessionId input) with
        | Some input_sessionId =>
            let* owned :=
              db_select VocabStudySessions_table
                (λ r, VocabStudySessions.id r = input_sessionId
                      ∧ VocabStudySessions.userId r = Some (App.id user)) in
            match head owned with
            | None => throw {| code := FORBIDDEN;
                               message := "Session not found or not accessible." |}
            | Some session => ret ()
            end
        | None => ret ()
        end in
      let* inserted :=
        db_insert VocabReviews_table (λ key,
          {| VocabReviews.id := key;
             VocabReviews.deckId := deckId input;
             VocabReviews.cardId := cardId input;
             VocabReviews.userId := Some (App.id user);
             VocabReviews.sessionId := sessionId input;
             VocabReviews.rating := rating input;
             VocabReviews.reviewedAt := default now (reviewedAt input);
             VocabReviews.dueAt := dueAt input;
             VocabReviews.intervalDays := default 0 (intervalDays input);
             VocabReviews.easeFactor := easeFactor input |}) in
      ret {| success := true; data := head inserted |}
  end.

Definition action := defineAction schema handler.
End logReview.

(** ** The API as a transition system *)

Inductive Request :=
| CreateDeck (i : createDeck.input)
| UpdateDeck (i : updateDeck.input)
| ListDecks (i : option listDecks.raw)
| UpsertCard (i : upsertCard.input)
| ListCards (i : listCards.raw)
| StartStudySession (i : startStudySession.input)
| CompleteStudySession (i : completeStudySession.input)
| LogReview (i : logReview.raw).

(** The store after one call; the response is dropped. *)
Definition serve (undef : UndefinedPolicy) (context : ActionAPIContext) (now : Date)
    (req : Request) (s : Db) : Db :=
  match req with
  | CreateDeck i => (createDeck.action i context now s).2
  | UpdateDeck i => (updateDeck.action undef i context now s).2
  | ListDecks i => (listDecks.action i context now s).2
  | UpsertCard i => (upsertCard.action undef i context now s).2
  | ListCards i => (listCards.action i context now s).2
  | StartStudySession i => (startStudySession.action i context now s).2
  | CompleteStudySession i => (completeStudySession.action undef i context now s).2
  | LogReview i => (logReview.action i context now s).2
  end.

(** The stores the API can reach from the empty one. *)
Inductive reachable (undef : UndefinedPolicy) : Db → Prop :=
| reachable_empty : reachable undef empty_db
| reachable_serve context now req s :
    reachable undef s → reachable undef (serve undef context now req s).

(** Primary keys are positive and identify a row. *)
Definition keys_list_ok (ks : list Z) : Prop := NoDup ks ∧ Forall (λ k, 0 < k) ks.

Definition keys_ok {R} (T : Table R) (s : Db) : Prop :=
  keys_list_ok (pk T <$> rows T s).

#[global] Instance keys_list_ok_dec ks : Decision (keys_list_ok ks).
Proof. unfold keys_list_ok. apply _. Defined.

#[global] Instance keys_ok_dec {R} (T : Table R) s : Decision (keys_ok T s).
Proof. unfold keys_ok. apply _. Defined.

Definition db_ok (s : Db) : Prop :=
  keys_ok VocabDecks_table s ∧ keys_ok VocabCards_table s
  ∧ keys_ok VocabStudySessions_table s ∧ keys_ok VocabReviews_table s.

#[global] Instance db_ok_dec s : Decision (db_ok s).
Proof. unfold db_ok. apply _. Defined.

(** A call that throws with the given code and leaves the store as it was. *)
Definition rejects {A} (m : Action A) (c : ErrorCode) (s : Db) : Prop :=
  ∃ msg, m s = (Throw {| code := c; message := msg |}, s).

(** A signed-in caller. *)
Definition signed_in (u : string) : ActionAPIContext :=
  {| locals := Some {| App.user := Some {| App.id := u |} |} |}.

(** ** A small history of calls

    Two users, [ann] and [bob]: each creates a deck, adds a card to it and
    starts a study session on it. *)

Definition ann : ActionAPIContext := signed_in "ann".
Definition bob : ActionAPIContext := signed_in "bob".

Definition new_deck (title : string) : createDeck.input :=
  {| createDeck.title := title;
     createDeck.description := None;
     createDeck.fromLanguage := None;
     createDeck.toLanguage := Some "de";
     createDeck.level := None;
     createDeck.tags := None;
     createDeck.isActive := None |}.

Definition card_request (id : option Z) (deckId : Z) (term translation : string)
    (gender : option string) : upsertCard.input :=
  {| upsertCard.id := id;
     upsertCard.deckId := deckId;
     upsertCard.displayOrder := None;
     upsertCard.term := term;
     upsertCard.translation := translation;
     upsertCard.transliteration := None;
     upsertCard.partOfSpeech := None;
     upsertCard.gender := gender;
     upsertCard.exampleSentence := None;
     upsertCard.exampleTranslation := None;
     upsertCard.phonetic := None;
     upsertCard.audioUrl := None;
     upsertCard.tags := None;
     upsertCard.isActive := None |}.

Definition demo_calls : list (ActionAPIContext * Date * Request) :=
  [ (ann, 100, CreateDeck (new_deck "Travel"));
    (bob, 110, CreateDeck (new_deck "Verbs"));
    (ann, 120, UpsertCard (card_request None 1 "book" "Buch" (Some "n")));
    (bob, 130, UpsertCard (card_request None 2 "go" "gehen" None));
    (ann, 140, StartStudySession {| startStudySession.deckId := 1 |});
    (bob, 150, StartStudySession {| startStudySession.deckId := 2 |}) ].

Definition run (undef : UndefinedPolicy)
    (calls : list (ActionAPIContext * Date * Request)) (s : Db) : Db :=
  foldl (λ s c, serve undef c.1.1 c.1.2 c.2 s) s calls.

Definition demo_db : Db := Eval vm_compute in run skip_undefined demo_calls empty_db.

(** The deck [ann] owns in [demo_db]. *)
Definition travel_deck : VocabDecks.row :=
  {| VocabDecks.id := 1;
     VocabDecks.ownerId := "ann";
     VocabDecks.title := "Travel";
     VocabDecks.description := None;
     VocabDecks.fromLanguage := "en";
     VocabDecks.toLanguage := "de";
     VocabDecks.level := mixed;
     VocabDecks.tags := None;
     VocabDecks.isActive := true;
     VocabDecks.createdAt := 100;
     VocabDecks.updatedAt := 100 |}.

(** ** Requests and outcomes used in the statements *)

Definition touch (id : Z) : updateDeck.input :=
  {| updateDeck.id := id;
     updateDeck.title := None;
     updateDeck.description := None;
     updateDeck.fromLanguage := None;
     updateDeck.toLanguage := None;
     updateDeck.level := None;
     updateDeck.tags := None;
     updateDeck.isActive := None |}.

(** The deck after an update: a supplied field takes the request's value, an
    omitted one keeps the stored value; updatedAt is the current time. *)
Definition updated_deck (i : updateDeck.input) (now : Date) (d : VocabDecks.row)
    : VocabDecks.row :=
  {| VocabDecks.id := VocabDecks.id d;
     VocabDecks.ownerId := VocabDecks.ownerId d;
     VocabDecks.title := default (VocabDecks.title d) (updateDeck.title i);
     VocabDecks.description :=
       from_option Some (VocabDecks.description d) (updateDeck.description i);
     VocabDecks.fromLanguage :=
       default (VocabDecks.fromLanguage d) (updateDeck.fromLanguage i);
     VocabDecks.toLanguage := default (VocabDecks.toLanguage d) (updateDeck.toLanguage i);
     VocabDecks.level := default (VocabDecks.level d) (updateDeck.level i);
     VocabDecks.tags := from_option Some (VocabDecks.tags d) (updateDeck.tags i);
     VocabDecks.isActive := default (VocabDecks.isActive d) (updateDeck.isActive i);
     VocabDecks.createdAt := VocabDecks.createdAt d;
     VocabDecks.updatedAt := now |}.

Definition rename (id : Z) (title : string) : updateDeck.input :=
  {| updateDeck.id := id;
     updateDeck.title := Some title;
     updateDeck.description := None;
     updateDeck.fromLanguage := None;
     updateDeck.toLanguage := None;
     updateDeck.level := None;
     updateDeck.tags := None;
     updateDeck.isActive := Some false |}.

(** The session after a completion: an omitted counter or summary keeps the
    stored value, completedAt is the supplied time or the current one. *)
Definition completed_session (i : completeStudySession.input) (now : Date)
    (r : VocabStudySessions.row) : VocabStudySessions.row :=
  {| VocabStudySessions.id := VocabStudySessions.id r;
     VocabStudySessions.deckId := VocabStudySessions.deckId r;
     VocabStudySessions.userId := VocabStudySessions.userId r;
     VocabStudySessions.startedAt := VocabStudySessions.startedAt r;
     VocabStudySessions.completedAt :=
       Some (default now (completeStudySession.completedAt i));
     VocabStudySessions.totalCardsSeen :=
       default (VocabStudySessions.totalCardsSeen r)
         (completeStudySession.totalCardsSeen i);
     VocabStudySessions.correctCount :=
       default (VocabStudySessions.correctCount r) (completeStudySession.correctCount i);
     VocabStudySessions.wrongCount :=
       default (VocabStudySessions.wrongCount r) (completeStudySession.wrongCount i);
     VocabStudySessions.summary :=
       from_option Some (VocabStudySessions.summary r) (completeStudySession.summary i);
     VocabStudySessions.createdAt := VocabStudySessions.createdAt r |}.

Definition finish (id : Z) (correct : option Z) (at_ : option Date)
    : completeStudySession.input :=
  {| completeStudySession.id := id;
     completeStudySession.totalCardsSeen := None;
     completeStudySession.correctCount := correct;
     completeStudySession.wrongCount := None;
     completeStudySession.summary := None;
     completeStudySession.completedAt := at_ |}.

(** The session [ann] started in [demo_db]. *)
Definition ann_session : VocabStudySessions.row :=
  {| VocabStudySessions.id := 1;
     VocabStudySessions.deckId := 1;
     VocabStudySessions.userId := Some "ann";
     VocabStudySessions.startedAt := 140;
     VocabStudySessions.completedAt := None;
     VocabStudySessions.totalCardsSeen := 0;
     VocabStudySessions.correctCount := 0;
     VocabStudySessions.wrongCount := 0;
     VocabStudySessions.summary := None;
     VocabStudySessions.createdAt := 140 |}.

(** The card after an update by id: displayOrder and isActive fall back to
    the stored card, the descriptive fields are what the store makes of the
    request's value, [undefined] when omitted. *)
Definition updated_card (undef : UndefinedPolicy) (i : upsertCard.input)
    (card : VocabCards.row) : VocabCards.row :=
  {| VocabCards.id := VocabCards.id card;
     VocabCards.deckId := upsertCard.deckId i;
     VocabCards.displayOrder :=
       default (VocabCards.displayOrder card) (upsertCard.displayOrder i);
     VocabCards.term := upsertCard.term i;
     VocabCards.translation := upsertCard.translation i;
     VocabCards.transliteration :=
       write_nullable undef (optional (upsertCard.transliteration i))
         (VocabCards.transliteration card);
     VocabCards.partOfSpeech :=
       write_nullable undef (optional (upsertCard.partOfSpeech i))
         (VocabCards.partOfSpeech card);
     VocabCards.gender :=
       write_nullable undef (optional (upsertCard.gender i)) (VocabCards.gender card);
     VocabCards.exampleSentence :=
       write_nullable undef (optional (upsertCard.exampleSentence i))
         (VocabCards.exampleSentence card);
     VocabCards.exampleTranslation :=
       write_nullable undef (optional (upsertCard.exampleTranslation i))
         (VocabCards.exampleTranslation card);
     VocabCards.phonetic :=
       write_nullable undef (optional (upsertCard.phonetic i)) (VocabCards.phonetic card);
     VocabCards.audioUrl :=
       write_nullable undef (optional (upsertCard.audioUrl i)) (VocabCards.audioUrl card);
     VocabCards.tags :=
       write_nullable undef (optional (upsertCard.tags i)) (VocabCards.tags card);
     VocabCards.isActive := default (VocabCards.isActive card) (upsertCard.isActive i) |}.

(** The card of [ann]'s deck in [demo_db]. *)
Definition book_card : VocabCards.row :=
  {| VocabCards.id := 1;
     VocabCards.deckId := 1;
     VocabCards.displayOrder := 0;
     VocabCards.term := "book";
     VocabCards.translation := "Buch";
     VocabCards.transliteration := None;
     VocabCards.partOfSpeech := None;
     VocabCards.gender := Some "n";
     VocabCards.exampleSentence := None;
     VocabCards.exampleTranslation := None;
     VocabCards.phonetic := None;
     VocabCards.audioUrl := None;
     VocabCards.tags := None;
     VocabCards.isActive := true |}.

(** The review row that logReview inserts under the key [key]. *)
Definition logged_review (i : logReview.raw) (user : App.User) (now : Date) (key : Z)
    : VocabReviews.row :=
  {| VocabReviews.id := key;
     VocabReviews.deckId := logReview.raw_deckId i;
     VocabReviews.cardId := logReview.raw_cardId i;
     VocabReviews.userId := Some (App.id user);
     VocabReviews.sessionId := logReview.raw_sessionId i;
     VocabReviews.rating := default good (logReview.raw_rating i);
     VocabReviews.reviewedAt := default now (logReview.raw_reviewedAt i);
     VocabReviews.dueAt := logReview.raw_dueAt i;
     VocabReviews.intervalDays := default 0 (logReview.raw_intervalDays i);
     VocabReviews.easeFactor := logReview.raw_easeFactor i |}.

Definition review_request (deckId cardId : Z) (sessionId : option Z) : logReview.raw :=
  {| logReview.raw_deckId := deckId;
     logReview.raw_cardId := cardId;
     logReview.raw_sessionId := sessionId;
     logReview.raw_rating := None;
     logReview.raw_reviewedAt := None;
     logReview.raw_dueAt := None;
     logReview.raw_intervalDays := None;
     logReview.raw_easeFactor := None |}.

(** [i] with the id left out. *)
Definition without_id (i : upsertCard.input) : upsertCard.input :=
  {| upsertCard.id := None;
     upsertCard.deckId := upsertCard.deckId i;
     upsertCard.displayOrder := upsertCard.displayOrder i;
     upsertCard.term := upsertCard.term i;
     upsertCard.translation := upsertCard.translation i;
     upsertCard.transliteration := upsertCard.transliteration i;
     upsertCard.partOfSpeech := upsertCard.partOfSpeech i;
     upsertCard.gender := upsertCard.gender i;
     upsertCard.exampleSentence := upsertCard.exampleSentence i;
     upsertCard.exampleTranslation := upsertCard.exampleTranslation i;
     upsertCard.phonetic := upsertCard.phonetic i;
     upsertCard.audioUrl := upsertCard.audioUrl i;
     upsertCard.tags := upsertCard.tags i;
     upsertCard.isActive := upsertCard.isActive i |}.

(** ** Outcomes of a call, for the statements about the whole API *)

(** The error a result carries, if any. *)
Definition thrown {A} (r : Outcome A) : option ActionError :=
  match r with
  | Ok _ => None
  | Throw e => Some e
  end.

(** The error a call ends with; [None] when it returns. *)
Definition failure (undef : UndefinedPolicy) (context : ActionAPIContext) (now : Date)
    (req : Request) (s : Db) : option ActionError :=
  match req with
  | CreateDeck i => thrown (createDeck.action i context now s).1
  | UpdateDeck i => thrown (updateDeck.action undef i context now s).1
  | ListDecks i => thrown (listDecks.action i context now s).1
  | UpsertCard i => thrown (upsertCard.action undef i context now s).1
  | ListCards i => thrown (listCards.action i context now s).1
  | StartStudySession i => thrown (startStudySession.action i context now s).1
  | CompleteStudySession i => thrown (completeStudySession.action undef i context now s).1
  | LogReview i => thrown (logReview.action i context now s).1
  end.

(** The error of the input constraints of a request alone. *)
Definition input_error (req : Request) : option ActionError :=
  match req with
  | CreateDeck i => thrown (createDeck.schema i)
  | UpdateDeck i => thrown (updateDeck.schema i)
  | ListDecks i => thrown (listDecks.schema i)
  | UpsertCard i => thrown (upsertCard.schema i)
  | ListCards i => thrown (listCards.schema i)
  | StartStudySession i => thrown (startStudySession.schema i)
  | CompleteStudySession i => thrown (completeStudySession.schema i)
  | LogReview i => thrown (logReview.schema i)
  end.

(** A caller without identity. *)
Definition anonymous : ActionAPIContext := {| locals := None |}.

(** The deck that createDeck stores under the key [key]. *)
Definition created_deck (i : createDeck.input) (user : App.User) (now : Date) (key : Z)
    : VocabDecks.row :=
  {| VocabDecks.id := key;
     VocabDecks.ownerId := App.id user;
     VocabDecks.title := createDeck.title i;
     VocabDecks.description := createDeck.description i;
     VocabDecks.fromLanguage := default "en" (createDeck.fromLanguage i);
     VocabDecks.toLanguage := default "en" (createDeck.toLanguage i);
     VocabDecks.level := default mixed (createDeck.level i);
     VocabDecks.tags := createDeck.tags i;
     VocabDecks.isActive := default true (createDeck.isActive i);
     VocabDecks.createdAt := now;
     VocabDecks.updatedAt := now |}.

(** The card that upsertCard stores under the key [key] on its insert path. *)
Definition inserted_card (i : upsertCard.input) (key : Z) : VocabCards.row :=
  {| VocabCards.id := key;
     VocabCards.deckId := upsertCard.deckId i;
     VocabCards.displayOrder := default 0 (upsertCard.displayOrder i);
     VocabCards.term := upsertCard.term i;
     VocabCards.translation := upsertCard.translation i;
     VocabCards.transliteration := upsertCard.transliteration i;
     VocabCards.partOfSpeech := upsertCard.partOfSpeech i;
     VocabCards.gender := upsertCard.gender i;
     VocabCards.exampleSentence := upsertCard.exampleSentence i;
     VocabCards.exampleTranslation := upsertCard.exampleTranslation i;
     VocabCards.phonetic := upsertCard.phonetic i;
     VocabCards.audioUrl := upsertCard.audioUrl i;
     VocabCards.tags := upsertCard.tags i;
     VocabCards.isActive := default true (upsertCard.isActive i) |}.

(** The session that startStudySession stores under the key [key]. *)
Definition started_session (deckId : Z) (user : App.User) (now : Date) (key : Z)
    : VocabStudySessions.row :=
  {| VocabStudySessions.id := key;
     VocabStudySessions.deckId := deckId;
     VocabStudySessions.userId := Some (App.id user);
     VocabStudySessions.startedAt := now;
     VocabStudySessions.completedAt := None;
     VocabStudySessions.totalCardsSeen := 0;
     VocabStudySessions.correctCount := 0;
     VocabStudySessions.wrongCount := 0;
     VocabStudySessions.summary := None;
     VocabStudySessions.createdAt := now |}.

(** A listCards request. *)
Definition cards_of (deckId : Z) (includeInactive : option bool) : listCards.raw :=
  {| listCards.raw_deckId := deckId; listCards.raw_includeInactive := includeInactive |}.

(** What never changes in a deck, a card and a session. *)
Definition deck_identity (d : VocabDecks.row) : Z * string * Date :=
  (VocabDecks.id d, VocabDecks.ownerId d, VocabDecks.createdAt d).

Definition card_identity (c : VocabCards.row) : Z * Z :=
  (VocabCards.id c, VocabCards.deckId c).

Definition session_identity (r : VocabStudySessions.row)
    : Z * Z * option string * Date * Date :=
  (VocabStudySessions.id r, VocabStudySessions.deckId r, VocabStudySessions.userId r,
   VocabStudySessions.startedAt r, VocabStudySessions.createdAt r).

(** The references of the rows lead somewhere: a card to a deck; a session to
    a deck of its user; a review to a deck of its user, to a card of that
    deck and, when its sessionId is neither null nor 0, to a session of its
    user. *)
Definition refs_ok (s : Db) : Prop :=
  (∀ c, c ∈ cards s → ∃ d, d ∈ decks s ∧ VocabDecks.id d = VocabCards.deckId c)
  ∧ (∀ r, r ∈ sessions s →
       ∃ d, d ∈ decks s ∧ VocabDecks.id d = VocabStudySessions.deckId r
            ∧ VocabStudySessions.userId r = Some (VocabDecks.ownerId d))
  ∧ (∀ v, v ∈ reviews s →
       (∃ d, d ∈ decks s ∧ VocabDecks.id d = VocabReviews.deckId v
             ∧ VocabReviews.userId v = Some (VocabDecks.ownerId d))
       ∧ (∃ c, c ∈ cards s ∧ VocabCards.id c = VocabReviews.cardId v
               ∧ VocabCards.deckId c = VocabReviews.deckId v)
       ∧ (∀ k, VocabReviews.sessionId v = Some k → k ≠ 0 →
            ∃ r, r ∈ sessions s ∧ VocabStudySessions.id r = k
                 ∧ VocabStudySessions.userId r = VocabReviews.userId v)).

(** The texts the input constraints ask for are there: no deck has an empty
    title, no card an empty term or translation. *)
Definition texts_ok (s : Db) : Prop :=
  (∀ d, d ∈ decks s → VocabDecks.title d ≠ "")
  ∧ (∀ c, c ∈ cards s → VocabCards.term c ≠ "" ∧ VocabCards.translation c ≠ "").

(** A startStudySession request. *)
Definition study (deckId : Z) : startStudySession.input :=
  {| startStudySession.deckId := deckId |}.

(** A listDecks request. *)
Definition decks_request (includeInactive : option bool) : option listDecks.raw :=
  Some {| listDecks.raw_includeInactive := includeInactive |}.

(** An updateDeck request that only switches the deck off. *)
Definition deactivate (id : Z) : updateDeck.input :=
  {| updateDeck.id := id;
     updateDeck.title := None;
     updateDeck.description := None;
     updateDeck.fromLanguage := None;
     updateDeck.toLanguage := None;
     updateDeck.level := None;
     updateDeck.tags := None;
     updateDeck.isActive := Some false |}.

(** What a nullable column holds after [.set] was given the request's value
    [v] for it: that value when it is supplied; when it is omitted
    ([undefined]), the stored value if the store leaves the key out of the
    UPDATE, NULL if the store writes it. *)
Definition after_set {A} (undef : UndefinedPolicy) (v : option A) (old : option A)
    : option A :=
  match v with
  | Some x => Some x
  | None => match undef with skip_undefined => old | null_undefined => None end
  end.

(** * Properties *)

#[local] Arguments set_decks : simpl never.
#[local] Arguments set_cards : simpl never.
#[local] Arguments set_sessions : simpl never.

(** ** Rows and keys *)

Section keyed_lists.
Context {R : Type} (key : R → Z).

Lemma filter_none (P : R → Prop) `{!∀ r, Decision (P r)} (l : list R) :
  (∀ r, r ∈ l → ¬ P r) → filter P l = [].
Proof.
  induction l as [|x l IH]; intros Hno; [done|].
  rewrite filter_cons_False by (apply Hno; left).
  apply IH. intros r Hr. apply Hno. by right.
Qed.

Lemma filter_key_unique (l : list R) (d : R) :
  NoDup (key <$> l) → d ∈ l → filter (λ r, key r = key d) l = [d].
Proof.
  induction l as [|x l IH]; intros Hnd Hd; [by apply elem_of_nil in Hd|].
  rewrite fmap_cons in Hnd. apply NoDup_cons in Hnd as [Hx Hnd].
  apply elem_of_cons in Hd as [->|Hd].
  - rewrite filter_cons_True by done. f_equal.
    apply filter_none. intros r Hr Heq. apply Hx. rewrite <- Heq.
    by apply list_elem_of_fmap_2.
  - rewrite filter_cons_False; [by apply IH|].
    intros Heq. apply Hx. rewrite Heq. by apply list_elem_of_fmap_2.
Qed.

Lemma filter_key_and (P : R → Prop) `{!∀ r, Decision (P r)} (l : list R) (d : R) :
  NoDup (key <$> l) → d ∈ l →
  filter (λ r, key r = key d ∧ P r) l = if decide (P d) then [d] else [].
Proof.
  intros Hnd Hd.
  rewrite (list_filter_iff _ (λ r, P r ∧ key r = key d)) by (intros; tauto).
  rewrite <- (list_filter_filter P (λ r, key r = key d)).
  rewrite filter_key_unique by done. apply filter_singleton. exact [].
Qed.

Lemma autoIncrement_fresh (keys : list Z) :
  Forall (λ k, k < autoIncrement keys) keys ∧ 0 < autoIncrement keys.
Proof.
  unfold autoIncrement. induction keys as [|k keys [IH1 IH2]]; simpl.
  - split; [constructor|lia].
  - split; [|lia]. constructor; [lia|].
    eapply Forall_impl; [exact IH1|]. simpl. intros; lia.
Qed.
End keyed_lists.

(** ** The monad and the guards *)

Lemma bind_ok {A B} (m : Action A) (k : A → Action B) s a s' :
  m s = (Ok a, s') → bind m k s = k a s'.
Proof. unfold bind. by intros ->. Qed.

Lemma bind_throw {A B} (m : Action A) (k : A → Action B) s e s' :
  m s = (Throw e, s') → bind m k s = (Throw e, s').
Proof. unfold bind. by intros ->. Qed.

Lemma requireUser_signed context user s :
  identity context = Some user → requireUser context s = (Ok user, s).
Proof. unfold requireUser. by intros ->. Qed.

Lemma requireUser_anonymous context s :
  identity context = None → rejects (requireUser context) UNAUTHORIZED s.
Proof. unfold requireUser, rejects. intros ->. by eexists. Qed.

Lemma identity_signed_in u : identity (signed_in u) = Some {| App.id := u |}.
Proof. reflexivity. Qed.

Lemma getDeckForUser_missing deckId userId s :
  (∀ d, d ∈ decks s → VocabDecks.id d ≠ deckId) →
  rejects (getDeckForUser deckId userId) NOT_FOUND s.
Proof.
  intros Hno. unfold rejects, getDeckForUser, bind, db_select; simpl.
  rewrite filter_none by done. by eexists.
Qed.

Lemma getDeckForUser_found deckId userId s d :
  keys_ok VocabDecks_table s → d ∈ decks s → VocabDecks.id d = deckId →
  getDeckForUser deckId userId s =
    if decide (VocabDecks.ownerId d ≠ userId)
    then (Throw {| code := FORBIDDEN;
                   message := "You do not have access to this deck." |}, s)
    else (Ok d, s).
Proof.
  intros [Hnd _] Hd <-. unfold getDeckForUser, bind, db_select; simpl in *.
  rewrite (filter_key_unique VocabDecks.id) by done. simpl.
  by destruct (decide _).
Qed.

(** The resolver never writes, and what it returns is an owned deck with the
    requested key. *)
Lemma getDeckForUser_inv deckId userId s r s' :
  getDeckForUser deckId userId s = (r, s') →
  s' = s ∧ ∀ d, r = Ok d →
    d ∈ decks s ∧ VocabDecks.id d = deckId ∧ VocabDecks.ownerId d = userId.
Proof.
  unfold getDeckForUser, bind, db_select; simpl.
  destruct (head _) as [d|] eqn:Hhead; simpl.
  - apply head_Some_elem_of, list_elem_of_filter in Hhead as [Hid Hin].
    destruct (decide _) as [Hne|Heq]; intros [= <- <-]; (split; [done|]).
    + by intros ?.
    + intros ? [= <-]. apply dec_stable in Heq. done.
  - intros [= <- <-]. split; [done|]. by intros ?.
Qed.

(** ** Primary keys stay positive and unique *)

Lemma keys_list_ok_snoc ks : keys_list_ok ks → keys_list_ok (ks ++ [autoIncrement ks]).
Proof.
  intros [Hnd Hpos]. destruct (autoIncrement_fresh ks) as [Hlt Hp].
  split.
  - apply NoDup_app. split; [done|]. split; [|apply NoDup_singleton].
    intros k Hk Hin. apply list_elem_of_singleton in Hin as ->.
    rewrite Forall_forall in Hlt. specialize (Hlt _ Hk). lia.
  - apply Forall_app. split; [done|]. by constructor.
Qed.

Lemma keys_list_ok_insert {R} (key : R → Z) (l : list R) (r : R) :
  key r = autoIncrement (key <$> l) →
  keys_list_ok (key <$> l) → keys_list_ok (key <$> l ++ [r]).
Proof. intros Hr Hl. rewrite fmap_app. simpl. rewrite Hr. by apply keys_list_ok_snoc. Qed.

Lemma keys_list_ok_update {R} (key : R → Z) (set : R → R) (P : R → Prop)
    `{!∀ r, Decision (P r)} (l : list R) :
  (∀ r, key (set r) = key r) →
  keys_list_ok (key <$> l) →
  keys_list_ok (key <$> ((λ r, if decide (P r) then set r else r) <$> l)).
Proof.
  intros Hset Hl. rewrite <- list_fmap_compose.
  erewrite list_fmap_ext; [exact Hl|].
  intros i r _. simpl. by destruct (decide _).
Qed.

Lemma set_decks_id undef o r : VocabDecks.id (set_decks undef o r) = VocabDecks.id r.
Proof.
  unfold set_decks. revert r.
  induction o as [|a o IH]; intros r; [done|]. simpl. by rewrite IH.
Qed.

Lemma set_cards_id undef o r : VocabCards.id (set_cards undef o r) = VocabCards.id r.
Proof.
  unfold set_cards. revert r.
  induction o as [|a o IH]; intros r; [done|]. simpl. by rewrite IH.
Qed.

Lemma set_sessions_id undef o r :
  VocabStudySessions.id (set_sessions undef o r) = VocabStudySessions.id r.
Proof.
  unfold set_sessions. revert r.
  induction o as [|a o IH]; intros r; [done|]. simpl. by rewrite IH.
Qed.

(** Symbolic execution of a handler: unfold the monad and split on every
    branch the code takes. *)
Ltac run_handler :=
  repeat (simpl in *;
          unfold bind, ret, throw, db_select, db_insert, db_update, requireUser,
            getDeckForUser, defineAction in *;
          first [ case_match | progress simplify_eq/= ]).

Ltac unfold_actions :=
  unfold createDeck.action, createDeck.handler, createDeck.schema,
    updateDeck.action, updateDeck.handler, updateDeck.schema,
    listDecks.action, listDecks.handler, listDecks.schema,
    upsertCard.action, upsertCard.handler, upsertCard.schema,
    listCards.action, listCards.handler, listCards.schema,
    startStudySession.action, startStudySession.handler, startStudySession.schema,
    completeStudySession.action, completeStudySession.handler,
    completeStudySession.schema,
    logReview.action, logReview.handler, logReview.schema in *.

Ltac keys_step :=
  first [ done
        | apply keys_list_ok_insert; [reflexivity|done]
        | apply keys_list_ok_update;
            [first [ apply set_decks_id | apply set_cards_id
                   | apply set_sessions_id | intros; reflexivity ]|done] ].

Lemma serve_db_ok undef context now req s :
  db_ok s → db_ok (serve undef context now req s).
Proof.
  intros (Hd & Hc & Hs & Hr). unfold db_ok, keys_ok in *.
  destruct req; unfold serve; unfold_actions; run_handler; split_and!; keys_step.
Qed.

Lemma reachable_db_ok undef s : reachable undef s → db_ok s.
Proof.
  induction 1 as [|context now req s _ IH].
  - repeat split; constructor.
  - by apply serve_db_ok.
Qed.

Lemma run_reachable undef calls s :
  reachable undef s → reachable undef (run undef calls s).
Proof.
  revert s. induction calls as [|[[c t] r] calls IH]; intros s Hs; [done|].
  apply IH. by constructor.
Qed.

Lemma demo_db_reachable : reachable skip_undefined demo_db.
Proof. apply (run_reachable skip_undefined demo_calls empty_db). constructor. Qed.

Lemma demo_db_ok : db_ok demo_db.
Proof. exact (reachable_db_ok _ _ demo_db_reachable). Qed.

(** ** C1: the ownership resolver *)

(** C1. For every deckId and caller identity, [getDeckForUser] fails with
    NOT_FOUND when no deck has that key, fails with FORBIDDEN when the deck
    exists and its ownerId differs from the caller's identity, and otherwise
    returns the deck; in the three cases the store is left as it was.  The
    handlers of updateDeck, upsertCard, listCards, startStudySession and
    logReview call it for a signed-in caller and fail with its error, without
    a write, when it fails. *)
Theorem getDeckForUser_resolves (deckId : Z) (userId : string) (s : Db) :
  keys_ok VocabDecks_table s →
  ((∀ d, d ∈ decks s → VocabDecks.id d ≠ deckId) →
     rejects (getDeckForUser deckId userId) NOT_FOUND s)
  ∧ (∀ d, d ∈ decks s → VocabDecks.id d = deckId → VocabDecks.ownerId d ≠ userId →
     rejects (getDeckForUser deckId userId) FORBIDDEN s)
  ∧ (∀ d, d ∈ decks s → VocabDecks.id d = deckId → VocabDecks.ownerId d = userId →
     getDeckForUser deckId userId s = (Ok d, s))
  ∧ (∀ e undef context now,
       identity context = Some {| App.id := userId |} →
       getDeckForUser deckId userId s = (Throw e, s) →
       (∀ i, updateDeck.id i = deckId →
          updateDeck.handler undef i context now s = (Throw e, s))
       ∧ (∀ i, upsertCard.deckId i = deckId →
          upsertCard.handler undef i context now s = (Throw e, s))
       ∧ (∀ i, listCards.deckId i = deckId →
          listCards.handler i context now s = (Throw e, s))
       ∧ (∀ i, startStudySession.deckId i = deckId →
          startStudySession.handler i context now s = (Throw e, s))
       ∧ (∀ i, logReview.deckId i = deckId →
          logReview.handler i context now s = (Throw e, s))).
Proof.
  intros Hkeys. split; [apply getDeckForUser_missing|].
  split; [|split].
  - intros d Hd Hid Hne. unfold rejects.
    rewrite (getDeckForUser_found _ _ _ d) by done.
    rewrite decide_True by done. by eexists.
  - intros d Hd Hid Hown.
    rewrite (getDeckForUser_found _ _ _ d) by done.
    rewrite decide_False; [done|]. by intros ?.
  - intros e undef context now Hu Hthrow.
    repeat split; intros i <-.
    + unfold updateDeck.handler.
      rewrite (bind_ok _ _ _ _ _ (requireUser_signed _ _ _ Hu)).
      by apply bind_throw.
    + unfold upsertCard.handler.
      rewrite (bind_ok _ _ _ _ _ (requireUser_signed _ _ _ Hu)).
      by apply bind_throw.
    + unfold listCards.handler.
      rewrite (bind_ok _ _ _ _ _ (requireUser_signed _ _ _ Hu)).
      by apply bind_throw.
    + unfold startStudySession.handler.
      rewrite (bind_ok _ _ _ _ _ (requireUser_signed _ _ _ Hu)).
      by apply bind_throw.
    + unfold logReview.handler.
      rewrite (bind_ok _ _ _ _ _ (requireUser_signed _ _ _ Hu)).
      by apply bind_throw.
Qed.

Lemma getDeckForUser_resolves_witness :
  keys_ok VocabDecks_table demo_db
  ∧ rejects (getDeckForUser 1 "bob") FORBIDDEN demo_db
  ∧ (∀ now, startStudySession.handler {| startStudySession.deckId := 1 |} bob now demo_db
       = (Throw {| code := FORBIDDEN;
                   message := "You do not have access to this deck." |}, demo_db)).
Proof.
  assert (Hkeys : keys_ok VocabDecks_table demo_db)
    by (apply (bool_decide_unpack _); vm_compute; exact I).
  split; [exact Hkeys|].
  destruct (getDeckForUser_resolves 1 "bob" demo_db Hkeys)
    as (_ & Hforbidden & _ & Hcall).
  split.
  - eapply Hforbidden; [eapply head_Some_elem_of; reflexivity|reflexivity|discriminate].
  - intros now.
    by apply (Hcall _ skip_undefined bob now (identity_signed_in "bob")).
Defined.
Section unique_rows.
Context {R : Type} (key : R → Z).

Lemma key_unique (l : list R) (d r : R) :
  NoDup (key <$> l) → d ∈ l → r ∈ l → key r = key d → r = d.
Proof.
  intros Hnd Hd Hr Heq.
  assert (Hin : r ∈ filter (λ x, key x = key d) l) by by apply list_elem_of_filter.
  rewrite (filter_key_unique key) in Hin by done.
  by apply list_elem_of_singleton in Hin.
Qed.

Lemma update_unique (set : R → R) (l : list R) (d : R) :
  NoDup (key <$> l) → d ∈ l →
  (λ r, if decide (key r = key d) then set r else r) <$> l
  = (λ r, if decide (key r = key d) then set d else r) <$> l.
Proof.
  intros Hnd Hd. apply list_fmap_ext. intros i r Hr.
  destruct (decide _) as [Heq|]; [|done].
  f_equal. apply (key_unique l); [done..| |done].
  by eapply list_elem_of_lookup_2.
Qed.
End unique_rows.

(** ** C8: listing decks *)

(** C8. For a signed-in caller, listDecks returns decks of the store whose
    ownerId is the caller's identity and nothing else: all of them when
    includeInactive is true, those with isActive = true when it is false or
    the input (or the field) is absent; total is the number of items and the
    store is left as it was. *)
Theorem listDecks_owned (i : option listDecks.raw) (context : ActionAPIContext)
    (user : App.User) (now : Date) (s : Db) :
  identity context = Some user →
  ∃ page,
    listDecks.action i context now s = (Ok {| success := true; data := page |}, s)
    ∧ total page = length (items page)
    ∧ (∀ d, d ∈ items page → d ∈ decks s ∧ VocabDecks.ownerId d = App.id user)
    ∧ (i ≫= listDecks.raw_includeInactive = Some true →
         items page = filter (λ d, VocabDecks.ownerId d = App.id user) (decks s)
         ∧ ∀ d, d ∈ items page ↔ d ∈ decks s ∧ VocabDecks.ownerId d = App.id user)
    ∧ (i ≫= listDecks.raw_includeInactive ≠ Some true →
         items page = filter (λ d, VocabDecks.ownerId d = App.id user
                                   ∧ VocabDecks.isActive d = true) (decks s)
         ∧ ∀ d, d ∈ items page ↔
             d ∈ decks s ∧ VocabDecks.ownerId d = App.id user
             ∧ VocabDecks.isActive d = true).
Proof.
  intros Hu.
  unfold listDecks.action, defineAction, listDecks.schema, listDecks.handler.
  rewrite (bind_ok _ _ _ _ _ (requireUser_signed _ _ _ Hu)).
  destruct i as [[[[]|]]|]; simpl; unfold bind, db_select, ret; simpl;
    eexists; (split; [reflexivity|]); simpl; (split; [reflexivity|]);
    (split; [intros d Hd; apply list_elem_of_filter in Hd; tauto|]);
    split; intros Hi; try done; (split; [reflexivity|]);
    intros d; rewrite list_elem_of_filter; tauto.
Qed.

Lemma listDecks_owned_witness :
  identity ann = Some {| App.id := "ann" |}
  ∧ ∃ page,
      listDecks.action None ann 0 demo_db = (Ok {| success := true; data := page |}, demo_db)
      ∧ total page = 1%nat.
Proof.
  split; [reflexivity|].
  destruct (listDecks_owned None ann {| App.id := "ann" |} 0 demo_db eq_refl)
    as (page & Hrun & Htotal & _ & _ & Hactive).
  exists page. split; [exact Hrun|].
  rewrite Htotal. destruct Hactive as [-> _]; [discriminate|]. reflexivity.
Defined.

(** ** C6: updateDeck without a field *)

(** C6. An updateDeck request in which none of title, description,
    fromLanguage, toLanguage, level, tags and isActive is present fails with
    INVALID_ARGUMENT and the store is left as it was, whoever calls and
    whatever the id: the input constraint throws before the handler (and so
    before the sign-in and ownership checks and the write) is entered, which
    holds for any handler put behind the schema. *)
Theorem updateDeck_requires_a_field (undef : UndefinedPolicy) (i : updateDeck.input)
    (context : ActionAPIContext) (now : Date) (s : Db) :
  updateDeck.title i = None → updateDeck.description i = None →
  updateDeck.fromLanguage i = None → updateDeck.toLanguage i = None →
  updateDeck.level i = None → updateDeck.tags i = None →
  updateDeck.isActive i = None →
  rejects (updateDeck.action undef i context now) INVALID_ARGUMENT s
  ∧ ∀ (O : Type) (h : updateDeck.input → ActionAPIContext → Date → Action O),
      rejects (defineAction updateDeck.schema h i context now) INVALID_ARGUMENT s.
Proof.
  intros Ht Hd Hf Hto Hl Htg Ha.
  assert (Hschema : updateDeck.schema i =
            Throw {| code := INVALID_ARGUMENT;
                     message := "At least one field must be provided to update." |}).
  { unfold updateDeck.schema, updateDeck.refine.
    by rewrite Ht, Hd, Hf, Hto, Hl, Htg, Ha. }
  split; [|intros O h];
    unfold rejects, updateDeck.action, defineAction; rewrite Hschema; by eexists.
Qed.

Lemma updateDeck_requires_a_field_witness :
  rejects (updateDeck.action skip_undefined (touch 1) ann 160) INVALID_ARGUMENT demo_db
  ∧ rejects (updateDeck.action skip_undefined (touch 7) {| locals := None |} 160)
      INVALID_ARGUMENT demo_db.
Proof.
  split.
  - apply (updateDeck_requires_a_field skip_undefined (touch 1) ann 160 demo_db);
      reflexivity.
  - apply (updateDeck_requires_a_field skip_undefined (touch 7) {| locals := None |}
             160 demo_db); reflexivity.
Defined.

(** ** C5: updateDeck overwrites what is supplied *)

Lemma set_decks_changes undef i now d :
  set_decks undef (updateDeck.changes i now) d = updated_deck i now d.
Proof.
  destruct i as [k [t|] [de|] [f|] [to|] [l|] [tg|] [a|]]; destruct d; reflexivity.
Qed.

(** C5. An updateDeck call that passes the input constraints, by a signed-in
    caller who owns the deck, succeeds; in the stored and returned deck
    exactly the supplied fields carry the request's values, every omitted
    field (with id, ownerId and createdAt, which no request carries) keeps
    its value, and updatedAt is the current time; the other decks and the
    other tables are left as they were. *)
Theorem updateDeck_overwrites_supplied (undef : UndefinedPolicy)
    (i : updateDeck.input) (context : ActionAPIContext) (user : App.User)
    (now : Date) (s : Db) (d : VocabDecks.row) :
  keys_ok VocabDecks_table s →
  identity context = Some user →
  updateDeck.schema i = Ok i →
  getDeckForUser (updateDeck.id i) (App.id user) s = (Ok d, s) →
  updateDeck.action undef i context now s =
    (Ok {| success := true; data := Some (updated_deck i now d) |},
     {| decks :=
          (λ r, if decide (VocabDecks.id r = updateDeck.id i)
                then updated_deck i now d else r) <$> decks s;
        cards := cards s; sessions := sessions s; reviews := reviews s |})
  ∧ VocabDecks.ownerId (updated_deck i now d) = VocabDecks.ownerId d
  ∧ VocabDecks.createdAt (updated_deck i now d) = VocabDecks.createdAt d
  ∧ VocabDecks.updatedAt (updated_deck i now d) = now
  ∧ (updateDeck.title i = None →
       VocabDecks.title (updated_deck i now d) = VocabDecks.title d)
  ∧ (updateDeck.description i = None →
       VocabDecks.description (updated_deck i now d) = VocabDecks.description d)
  ∧ (updateDeck.fromLanguage i = None →
       VocabDecks.fromLanguage (updated_deck i now d) = VocabDecks.fromLanguage d)
  ∧ (updateDeck.toLanguage i = None →
       VocabDecks.toLanguage (updated_deck i now d) = VocabDecks.toLanguage d)
  ∧ (updateDeck.level i = None →
       VocabDecks.level (updated_deck i now d) = VocabDecks.level d)
  ∧ (updateDeck.tags i = None →
       VocabDecks.tags (updated_deck i now d) = VocabDecks.tags d)
  ∧ (updateDeck.isActive i = None →
       VocabDecks.isActive (updated_deck i now d) = VocabDecks.isActive d).
Proof.
  intros [Hnd _] Hu Hschema Hdeck.
  destruct (getDeckForUser_inv _ _ _ _ _ Hdeck) as [_ Hd].
  destruct (Hd d eq_refl) as (Hin & Hid & Hown).
  split; [|split_and!; try done; intros Hn; simpl; by rewrite Hn].
  unfold updateDeck.action, defineAction. rewrite Hschema.
  unfold updateDeck.handler.
  rewrite (bind_ok _ _ _ _ _ (requireUser_signed _ _ _ Hu)).
  rewrite (bind_ok _ _ _ _ _ Hdeck).
  unfold bind, db_update, ret; simpl in *. rewrite <- Hid.
  rewrite (filter_key_unique VocabDecks.id) by done.
  rewrite (update_unique VocabDecks.id) by done.
  simpl. by rewrite set_decks_changes.
Qed.

Lemma updateDeck_overwrites_supplied_witness :
  getDeckForUser 1 "ann" demo_db = (Ok travel_deck, demo_db)
  ∧ (updateDeck.action skip_undefined (rename 1 "Trips") ann 170 demo_db).1
    = Ok {| success := true;
            data := Some (updated_deck (rename 1 "Trips") 170 travel_deck) |}
  ∧ VocabDecks.title (updated_deck (rename 1 "Trips") 170 travel_deck) = "Trips"
  ∧ VocabDecks.toLanguage (updated_deck (rename 1 "Trips") 170 travel_deck) = "de".
Proof.
  assert (Hkeys : keys_ok VocabDecks_table demo_db)
    by (apply (bool_decide_unpack _); vm_compute; exact I).
  split; [reflexivity|].
  split; [|split; reflexivity].
  rewrite (proj1 (updateDeck_overwrites_supplied skip_undefined (rename 1 "Trips") ann
                    {| App.id := "ann" |} 170 demo_db travel_deck
                    Hkeys eq_refl eq_refl eq_refl)).
  reflexivity.
Defined.

(** ** C7: completing a study session *)

Lemma set_sessions_changes undef i r0 now r :
  set_sessions undef (completeStudySession.changes i r0 now) r
  = {| VocabStudySessions.id := VocabStudySessions.id r;
       VocabStudySessions.deckId := VocabStudySessions.deckId r;
       VocabStudySessions.userId := VocabStudySessions.userId r;
       VocabStudySessions.startedAt := VocabStudySessions.startedAt r;
       VocabStudySessions.completedAt :=
         VocabStudySessions.completedAt (completed_session i now r0);
       VocabStudySessions.totalCardsSeen :=
         VocabStudySessions.totalCardsSeen (completed_session i now r0);
       VocabStudySessions.correctCount :=
         VocabStudySessions.correctCount (completed_session i now r0);
       VocabStudySessions.wrongCount :=
         VocabStudySessions.wrongCount (completed_session i now r0);
       VocabStudySessions.summary :=
         VocabStudySessions.summary (completed_session i now r0);
       VocabStudySessions.createdAt := VocabStudySessions.createdAt r |}.
Proof. destruct i as [k t c w [j|] a]; reflexivity. Qed.

Lemma completeStudySession_missing undef i context user now s :
  identity context = Some user →
  (∀ r, r ∈ sessions s →
     ¬ (VocabStudySessions.id r = completeStudySession.id i
        ∧ VocabStudySessions.userId r = Some (App.id user))) →
  rejects (completeStudySession.action undef i context now) NOT_FOUND s.
Proof.
  intros Hu Hno. unfold rejects, completeStudySession.action, defineAction,
    completeStudySession.schema, completeStudySession.handler.
  rewrite (bind_ok _ _ _ _ _ (requireUser_signed _ _ _ Hu)).
  unfold bind, db_select; simpl. rewrite filter_none by done. by eexists.
Qed.

Lemma completeStudySession_found undef i context user now s r :
  keys_ok VocabStudySessions_table s →
  identity context = Some user →
  r ∈ sessions s →
  VocabStudySessions.id r = completeStudySession.id i →
  VocabStudySessions.userId r = Some (App.id user) →
  completeStudySession.action undef i context now s =
    (Ok {| success := true; data := Some (completed_session i now r) |},
     {| decks := decks s; cards := cards s;
        sessions :=
          (λ x, if decide (VocabStudySessions.id x = completeStudySession.id i)
                then completed_session i now r else x) <$> sessions s;
        reviews := reviews s |}).
Proof.
  intros [Hnd _] Hu Hr Hid Huser.
  unfold completeStudySession.action, defineAction,
    completeStudySession.schema, completeStudySession.handler.
  rewrite (bind_ok _ _ _ _ _ (requireUser_signed _ _ _ Hu)).
  unfold bind, db_select, db_update, ret; simpl in *. rewrite <- Hid.
  rewrite (filter_key_and VocabStudySessions.id
             (λ x, VocabStudySessions.userId x = Some (App.id user))) by done.
  rewrite decide_True by done. simpl.
  rewrite (filter_key_unique VocabStudySessions.id) by done.
  rewrite (update_unique VocabStudySessions.id) by done.
  simpl. rewrite set_sessions_changes. by destruct r.
Qed.

(** C7. For a signed-in caller, completeStudySession fails with NOT_FOUND,
    without a write, when no session has the given id together with the
    caller's userId (so also when the id is the one of another user's
    session); when such a session exists the call succeeds and stores and
    returns it with totalCardsSeen, correctCount, wrongCount and summary
    equal to the request's value, or to the stored value when omitted, and
    with completedAt equal to the supplied time, or to the current time when
    omitted. *)
Theorem completeStudySession_scoped (undef : UndefinedPolicy)
    (i : completeStudySession.input) (context : ActionAPIContext)
    (user : App.User) (now : Date) (s : Db) :
  keys_ok VocabStudySessions_table s →
  identity context = Some user →
  ((∀ r, r ∈ sessions s →
      ¬ (VocabStudySessions.id r = completeStudySession.id i
         ∧ VocabStudySessions.userId r = Some (App.id user))) →
     rejects (completeStudySession.action undef i context now) NOT_FOUND s)
  ∧ (∀ r, r ∈ sessions s →
       VocabStudySessions.id r = completeStudySession.id i →
       VocabStudySessions.userId r ≠ Some (App.id user) →
       rejects (completeStudySession.action undef i context now) NOT_FOUND s)
  ∧ (∀ r, r ∈ sessions s →
       VocabStudySessions.id r = completeStudySession.id i →
       VocabStudySessions.userId r = Some (App.id user) →
       completeStudySession.action undef i context now s =
         (Ok {| success := true; data := Some (completed_session i now r) |},
          {| decks := decks s; cards := cards s;
             sessions :=
               (λ x, if decide (VocabStudySessions.id x = completeStudySession.id i)
                     then completed_session i now r else x) <$> sessions s;
             reviews := reviews s |})
       ∧ (completeStudySession.totalCardsSeen i = None →
            VocabStudySessions.totalCardsSeen (completed_session i now r)
            = VocabStudySessions.totalCardsSeen r)
       ∧ (completeStudySession.correctCount i = None →
            VocabStudySessions.correctCount (completed_session i now r)
            = VocabStudySessions.correctCount r)
       ∧ (completeStudySession.wrongCount i = None →
            VocabStudySessions.wrongCount (completed_session i now r)
            = VocabStudySessions.wrongCount r)
       ∧ (completeStudySession.summary i = None →
            VocabStudySessions.summary (completed_session i now r)
            = VocabStudySessions.summary r)
       ∧ VocabStudySessions.completedAt (completed_session i now r)
         = Some (default now (completeStudySession.completedAt i))).
Proof.
  intros Hkeys Hu.
  split; [by apply (completeStudySession_missing _ _ _ user)|]. split.
  - intros r Hr Hid Hother. apply (completeStudySession_missing _ _ _ user); [done|].
    intros r' Hr' [Hid' Huser']. destruct Hkeys as [Hnd _].
    assert (r' = r) as -> by (apply (key_unique VocabStudySessions.id (sessions s));
                              [done..|congruence]).
    done.
  - intros r Hr Hid Huser.
    split; [by apply (completeStudySession_found _ _ _ user)|].
    split_and!; try done; intros Hn; simpl; by rewrite Hn.
Qed.

Lemma completeStudySession_scoped_witness :
  rejects (completeStudySession.action skip_undefined (finish 2 (Some 1) None) ann 200)
    NOT_FOUND demo_db
  ∧ (completeStudySession.action skip_undefined (finish 1 None None) ann 200 demo_db).1
    = Ok {| success := true;
            data := Some (completed_session (finish 1 None None) 200 ann_session) |}
  ∧ VocabStudySessions.completedAt (completed_session (finish 1 None None) 200 ann_session)
    = Some 200.
Proof.
  assert (Hkeys : keys_ok VocabStudySessions_table demo_db)
    by (apply (bool_decide_unpack _); vm_compute; exact I).
  destruct (completeStudySession_scoped skip_undefined (finish 2 (Some 1) None) ann
              {| App.id := "ann" |} 200 demo_db Hkeys eq_refl) as (_ & Hforeign & _).
  destruct (completeStudySession_scoped skip_undefined (finish 1 None None) ann
              {| App.id := "ann" |} 200 demo_db Hkeys eq_refl) as (_ & _ & Hown).
  split; [|split; [|reflexivity]].
  - eapply Hforeign;
      [eapply (list_elem_of_lookup_2 _ 1%nat); reflexivity|reflexivity|discriminate].
  - destruct (Hown ann_session) as [-> _]; [|reflexivity..].
    eapply head_Some_elem_of. reflexivity.
Defined.

(** ** C4: upsertCard with the id of a card of the deck *)

Lemma set_cards_changes undef i card :
  set_cards undef (upsertCard.changes i card) card = updated_card undef i card.
Proof. destruct card; reflexivity. Qed.

Lemma truthy_Some k : k ≠ 0 → truthy (Some k) = Some k.
Proof. intros Hk. simpl. by rewrite (proj2 (Z.eqb_neq k 0) Hk). Qed.

Lemma keys_ok_nonzero {R} (T : Table R) s r : keys_ok T s → r ∈ rows T s → pk T r ≠ 0.
Proof.
  intros [_ Hpos] Hr. rewrite Forall_fmap, Forall_forall in Hpos.
  specialize (Hpos _ Hr). simpl in Hpos. lia.
Qed.

(** The update path, for either treatment of [undefined] by the store. *)
Lemma upsertCard_updates undef i context user now s d k card :
  keys_ok VocabCards_table s →
  identity context = Some user →
  upsertCard.schema i = Ok i →
  getDeckForUser (upsertCard.deckId i) (App.id user) s = (Ok d, s) →
  upsertCard.id i = Some k →
  card ∈ cards s → VocabCards.id card = k → VocabCards.deckId card = upsertCard.deckId i →
  upsertCard.action undef i context now s =
    (Ok {| success := true; data := Some (updated_card undef i card) |},
     {| decks := decks s;
        cards := (λ r, if decide (VocabCards.id r = k)
                       then updated_card undef i card else r) <$> cards s;
        sessions := sessions s; reviews := reviews s |}).
Proof.
  intros Hkeys Hu Hschema Hdeck Hid Hcard Hk Hdk.
  pose proof (keys_ok_nonzero VocabCards_table s card Hkeys Hcard) as Hnz.
  destruct Hkeys as [Hnd _]. simpl in *.
  unfold upsertCard.action, defineAction. rewrite Hschema.
  unfold upsertCard.handler.
  rewrite (bind_ok _ _ _ _ _ (requireUser_signed _ _ _ Hu)).
  rewrite (bind_ok _ _ _ _ _ Hdeck).
  rewrite Hid, truthy_Some by congruence.
  unfold bind, db_select, db_update, ret; simpl. subst k.
  rewrite (filter_key_and VocabCards.id
             (λ r, VocabCards.deckId r = upsertCard.deckId i)) by done.
  rewrite decide_True by done. simpl.
  rewrite (filter_key_unique VocabCards.id) by done.
  rewrite (update_unique VocabCards.id) by done.
  simpl. by rewrite set_cards_changes.
Qed.

(** C4, the claim as it is stated, fails: [ann] updates her card by id and
    leaves the gender out of the request; the stored gender "n" is not
    overwritten, the returned and stored card still has it, because the
    query builder leaves a key whose value is [undefined] out of the
    UPDATE. *)
Lemma upsertCard_update_keeps_omitted :
  upsertCard.gender (card_request (Some 1) 1 "book" "Buch" None) = None
  ∧ cards demo_db !! 0%nat = Some book_card
  ∧ VocabCards.gender book_card = Some "n"
  ∧ ∃ updated s',
      upsertCard.action skip_undefined (card_request (Some 1) 1 "book" "Buch" None)
        ann 300 demo_db
      = (Ok {| success := true; data := Some updated |}, s')
      ∧ cards s' !! 0%nat = Some updated
      ∧ VocabCards.id updated = 1
      ∧ VocabCards.gender updated = Some "n".
Proof.
  split_and!; try reflexivity.
  eexists _, _. split; [vm_compute; reflexivity|]. split_and!; reflexivity.
Qed.

(** C4, amended. An upsertCard call with the id of a card of the supplied
    deck, by a signed-in owner of that deck, stores and returns the card with
    displayOrder and isActive equal to the request's value, or to the stored
    value when omitted, and with term and translation equal to the request's
    values.  Each of transliteration, partOfSpeech, gender, exampleSentence,
    exampleTranslation, phonetic, audioUrl and tags takes the request's value
    when it is supplied; when it is omitted the handler gives it to [.set] as
    [undefined], and what the column then holds is the store's doing
    ([after_set]): the stored value is kept by a store that leaves such a
    key out of the UPDATE, as the query builder does, and would be cleared
    only by a store that writes it as NULL. *)
Theorem upsertCard_update_merges (undef : UndefinedPolicy) (i : upsertCard.input)
    (context : ActionAPIContext) (user : App.User) (now : Date) (s : Db)
    (d : VocabDecks.row) (k : Z) (card : VocabCards.row) :
  keys_ok VocabCards_table s →
  identity context = Some user →
  upsertCard.schema i = Ok i →
  getDeckForUser (upsertCard.deckId i) (App.id user) s = (Ok d, s) →
  upsertCard.id i = Some k →
  card ∈ cards s → VocabCards.id card = k → VocabCards.deckId card = upsertCard.deckId i →
  ∃ updated,
    upsertCard.action undef i context now s =
      (Ok {| success := true; data := Some updated |},
       {| decks := decks s;
          cards := (λ r, if decide (VocabCards.id r = k) then updated else r) <$> cards s;
          sessions := sessions s; reviews := reviews s |})
    ∧ VocabCards.id updated = k
    ∧ VocabCards.displayOrder updated
      = default (VocabCards.displayOrder card) (upsertCard.displayOrder i)
    ∧ VocabCards.isActive updated
      = default (VocabCards.isActive card) (upsertCard.isActive i)
    ∧ VocabCards.term updated = upsertCard.term i
    ∧ VocabCards.translation updated = upsertCard.translation i
    ∧ VocabCards.transliteration updated
      = after_set undef (upsertCard.transliteration i) (VocabCards.transliteration card)
    ∧ VocabCards.partOfSpeech updated
      = after_set undef (upsertCard.partOfSpeech i) (VocabCards.partOfSpeech card)
    ∧ VocabCards.gender updated
      = after_set undef (upsertCard.gender i) (VocabCards.gender card)
    ∧ VocabCards.exampleSentence updated
      = after_set undef (upsertCard.exampleSentence i) (VocabCards.exampleSentence card)
    ∧ VocabCards.exampleTranslation updated
      = after_set undef (upsertCard.exampleTranslation i)
          (VocabCards.exampleTranslation card)
    ∧ VocabCards.phonetic updated
      = after_set undef (upsertCard.phonetic i) (VocabCards.phonetic card)
    ∧ VocabCards.audioUrl updated
      = after_set undef (upsertCard.audioUrl i) (VocabCards.audioUrl card)
    ∧ VocabCards.tags updated
      = after_set undef (upsertCard.tags i) (VocabCards.tags card)
    ∧ (undef = skip_undefined →
         VocabCards.transliteration updated
           = from_option Some (VocabCards.transliteration card)
               (upsertCard.transliteration i)
         ∧ VocabCards.partOfSpeech updated
           = from_option Some (VocabCards.partOfSpeech card) (upsertCard.partOfSpeech i)
         ∧ VocabCards.gender updated
           = from_option Some (VocabCards.gender card) (upsertCard.gender i)
         ∧ VocabCards.exampleSentence updated
           = from_option Some (VocabCards.exampleSentence card)
               (upsertCard.exampleSentence i)
         ∧ VocabCards.exampleTranslation updated
           = from_option Some (VocabCards.exampleTranslation card)
               (upsertCard.exampleTranslation i)
         ∧ VocabCards.phonetic updated
           = from_option Some (VocabCards.phonetic card) (upsertCard.phonetic i)
         ∧ VocabCards.audioUrl updated
           = from_option Some (VocabCards.audioUrl card) (upsertCard.audioUrl i)
         ∧ VocabCards.tags updated
           = from_option Some (VocabCards.tags card) (upsertCard.tags i)).
Proof.
  intros Hkeys Hu Hschema Hdeck Hid Hcard Hk Hdk.
  exists (updated_card undef i card).
  split; [by eapply upsertCard_updates|].
  split; [done|].
  destruct i as [? ? ? ? ? [?|] [?|] [?|] [?|] [?|] [?|] [?|] [?|] ?];
    split_and!; try reflexivity; by intros ->.
Qed.

Lemma upsertCard_update_merges_witness :
  ∃ updated,
    (upsertCard.action skip_undefined (card_request (Some 1) 1 "book" "Buecher" None)
       ann 300 demo_db).1
      = Ok {| success := true; data := Some updated |}
    ∧ VocabCards.translation updated = "Buecher"
    ∧ VocabCards.gender book_card = Some "n"
    ∧ VocabCards.gender updated = Some "n".
Proof.
  assert (Hkeys : keys_ok VocabCards_table demo_db)
    by (apply (bool_decide_unpack _); vm_compute; exact I).
  destruct (upsertCard_update_merges skip_undefined
              (card_request (Some 1) 1 "book" "Buecher" None) ann
              {| App.id := "ann" |} 300 demo_db travel_deck 1 book_card
              Hkeys eq_refl eq_refl eq_refl eq_refl)
    as (updated & Hrun & _ & _ & _ & _ & Htr & _ & _ & Hgender & _);
    [eapply (list_elem_of_lookup_2 _ 0%nat); reflexivity|reflexivity|reflexivity|].
  exists updated. rewrite Hrun. split; [reflexivity|].
  split; [exact Htr|]. split; [reflexivity|exact Hgender].
Defined.

(** Where the store leaves a key whose value is [undefined] out of the
    UPDATE, the update keeps the stored value of every omitted descriptive
    field. *)
Lemma upsertCard_update_skips_omitted (i : upsertCard.input) (card : VocabCards.row) :
  let updated := updated_card skip_undefined i card in
  VocabCards.transliteration updated
    = from_option Some (VocabCards.transliteration card) (upsertCard.transliteration i)
  ∧ VocabCards.partOfSpeech updated
    = from_option Some (VocabCards.partOfSpeech card) (upsertCard.partOfSpeech i)
  ∧ VocabCards.gender updated
    = from_option Some (VocabCards.gender card) (upsertCard.gender i)
  ∧ VocabCards.exampleSentence updated
    = from_option Some (VocabCards.exampleSentence card) (upsertCard.exampleSentence i)
  ∧ VocabCards.exampleTranslation updated
    = from_option Some (VocabCards.exampleTranslation card)
        (upsertCard.exampleTranslation i)
  ∧ VocabCards.phonetic updated
    = from_option Some (VocabCards.phonetic card) (upsertCard.phonetic i)
  ∧ VocabCards.audioUrl updated
    = from_option Some (VocabCards.audioUrl card) (upsertCard.audioUrl i)
  ∧ VocabCards.tags updated
    = from_option Some (VocabCards.tags card) (upsertCard.tags i).
Proof.
  destruct i as [? ? ? ? ? [?|] [?|] [?|] [?|] [?|] [?|] [?|] [?|] ?];
    split_and!; reflexivity.
Qed.

(** ** C3: upsertCard with an id that is not a card of the deck *)

Lemma head_filter_Some {R} (P : R → Prop) `{!∀ r, Decision (P r)} (l : list R) (r : R) :
  r ∈ l → P r → is_Some (head (filter P l)).
Proof.
  intros Hr HP. destruct (filter P l) as [|x l'] eqn:Hf; [|by eexists].
  exfalso. eapply filter_nil_not_elem_of; eauto.
Qed.

(** With a non-zero id that no card of the deck has, in particular the id of
    a card of another deck, the call fails with NOT_FOUND and writes
    nothing. *)
Lemma upsertCard_unknown_card undef i context user now s d k :
  identity context = Some user →
  upsertCard.schema i = Ok i →
  getDeckForUser (upsertCard.deckId i) (App.id user) s = (Ok d, s) →
  upsertCard.id i = Some k → k ≠ 0 →
  (∀ c, c ∈ cards s →
     ¬ (VocabCards.id c = k ∧ VocabCards.deckId c = upsertCard.deckId i)) →
  rejects (upsertCard.action undef i context now) NOT_FOUND s.
Proof.
  intros Hu Hschema Hdeck Hid Hk Hno.
  unfold rejects, upsertCard.action, defineAction. rewrite Hschema.
  unfold upsertCard.handler.
  rewrite (bind_ok _ _ _ _ _ (requireUser_signed _ _ _ Hu)).
  rewrite (bind_ok _ _ _ _ _ Hdeck).
  rewrite Hid, truthy_Some by done.
  unfold bind, db_select; simpl. rewrite filter_none by done. by eexists.
Qed.

Lemma upsertCard_other_deck_card undef i context user now s d k c :
  keys_ok VocabCards_table s →
  identity context = Some user →
  upsertCard.schema i = Ok i →
  getDeckForUser (upsertCard.deckId i) (App.id user) s = (Ok d, s) →
  upsertCard.id i = Some k →
  c ∈ cards s → VocabCards.id c = k → VocabCards.deckId c ≠ upsertCard.deckId i →
  rejects (upsertCard.action undef i context now) NOT_FOUND s.
Proof.
  intros Hkeys Hu Hschema Hdeck Hid Hc Hk Hdk.
  eapply upsertCard_unknown_card; eauto.
  - subst k. by apply (keys_ok_nonzero VocabCards_table s c).
  - intros c' Hc' [Hid' Hdk']. destruct Hkeys as [Hnd _].
    assert (c' = c) as -> by (apply (key_unique VocabCards.id (cards s));
                              [done..|congruence]).
    done.
Qed.

(** The id 0 is not seen by the handler: [if (input.id)] takes it for an
    omitted id. *)
Lemma upsertCard_zero_id undef i context now s :
  upsertCard.id i = Some 0 →
  upsertCard.handler undef i context now s
  = upsertCard.handler undef (without_id i) context now s.
Proof. intros Hid. unfold upsertCard.handler. by rewrite Hid. Qed.

(** C3. The claim asks for NOT_FOUND and no new card whenever the supplied id
    is not a card of the deck.  At id = 0, which no card has, the call made by
    [ann] for her deck does not fail: it is served as if the id were omitted
    and stores a third card. *)
Theorem upsertCard_id_zero_inserts :
  (0 ∉ (VocabCards.id <$> cards demo_db))
  ∧ ∃ card,
      upsertCard.action skip_undefined (card_request (Some 0) 1 "tree" "Baum" None)
        ann 300 demo_db
      = (Ok {| success := true; data := Some card |},
         {| decks := decks demo_db; cards := cards demo_db ++ [card];
            sessions := sessions demo_db; reviews := reviews demo_db |})
      ∧ VocabCards.id card = 3
      ∧ VocabCards.term card = "tree".
Proof.
  split.
  - apply (bool_decide_unpack _). vm_compute. exact I.
  - eexists. split; [vm_compute; reflexivity|]. split; reflexivity.
Qed.

(** ** C2: logging a review *)

Lemma logReview_card_missing i context user now s d :
  identity context = Some user →
  getDeckForUser (logReview.raw_deckId i) (App.id user) s = (Ok d, s) →
  (∀ c, c ∈ cards s →
     ¬ (VocabCards.id c = logReview.raw_cardId i
        ∧ VocabCards.deckId c = logReview.raw_deckId i)) →
  rejects (logReview.action i context now) NOT_FOUND s.
Proof.
  intros Hu Hdeck Hno.
  unfold rejects, logReview.action, defineAction, logReview.schema, logReview.handler.
  simpl. rewrite (bind_ok _ _ _ _ _ (requireUser_signed _ _ _ Hu)).
  rewrite (bind_ok _ _ _ _ _ Hdeck).
  unfold bind, db_select; simpl. rewrite filter_none by done. by eexists.
Qed.

Lemma logReview_session_foreign i context user now s d c k :
  identity context = Some user →
  getDeckForUser (logReview.raw_deckId i) (App.id user) s = (Ok d, s) →
  c ∈ cards s → VocabCards.id c = logReview.raw_cardId i →
  VocabCards.deckId c = logReview.raw_deckId i →
  logReview.raw_sessionId i = Some k → k ≠ 0 →
  (∀ r, r ∈ sessions s →
     ¬ (VocabStudySessions.id r = k
        ∧ VocabStudySessions.userId r = Some (App.id user))) →
  rejects (logReview.action i context now) FORBIDDEN s.
Proof.
  intros Hu Hdeck Hc Hcid Hcdk Hsid Hk Hno.
  unfold rejects, logReview.action, defineAction, logReview.schema, logReview.handler.
  simpl. rewrite (bind_ok _ _ _ _ _ (requireUser_signed _ _ _ Hu)).
  rewrite (bind_ok _ _ _ _ _ Hdeck).
  unfold bind at 1. unfold db_select at 1. simpl.
  destruct (head_filter_Some
              (λ r, VocabCards.id r = logReview.raw_cardId i
                    ∧ VocabCards.deckId r = logReview.raw_deckId i) (cards s) c)
    as [c' ->]; [done..|].
  rewrite Hsid, truthy_Some by done.
  unfold bind, db_select; simpl. rewrite filter_none by done. by eexists.
Qed.

Lemma logReview_inserts i context user now s d c :
  identity context = Some user →
  getDeckForUser (logReview.raw_deckId i) (App.id user) s = (Ok d, s) →
  c ∈ cards s → VocabCards.id c = logReview.raw_cardId i →
  VocabCards.deckId c = logReview.raw_deckId i →
  match logReview.raw_sessionId i with
  | None => True
  | Some k => ∃ r, r ∈ sessions s ∧ VocabStudySessions.id r = k
                  ∧ VocabStudySessions.userId r = Some (App.id user)
  end →
  let review :=
    logged_review i user now (autoIncrement (VocabReviews.id <$> reviews s)) in
  logReview.action i context now s =
    (Ok {| success := true; data := Some review |},
     {| decks := decks s; cards := cards s; sessions := sessions s;
        reviews := reviews s ++ [review] |}).
Proof.
  intros Hu Hdeck Hc Hcid Hcdk Hsession.
  unfold logReview.action, defineAction, logReview.schema, logReview.handler.
  simpl. rewrite (bind_ok _ _ _ _ _ (requireUser_signed _ _ _ Hu)).
  rewrite (bind_ok _ _ _ _ _ Hdeck).
  unfold bind at 1. unfold db_select at 1. simpl.
  destruct (head_filter_Some
              (λ r, VocabCards.id r = logReview.raw_cardId i
                    ∧ VocabCards.deckId r = logReview.raw_deckId i) (cards s) c)
    as [c' ->]; [done..|].
  unfold logged_review.
  destruct (logReview.raw_sessionId i) as [k|] eqn:Hsid; [|reflexivity].
  destruct Hsession as (r & Hr & Hrid & Hruser). simpl.
  destruct (Z.eqb k 0); [reflexivity|].
  unfold bind at 2. unfold db_select at 1. unfold bind at 2. simpl.
  destruct (head_filter_Some
              (λ x, VocabStudySessions.id x = k
                    ∧ VocabStudySessions.userId x = Some (App.id user)) (sessions s) r)
    as [r' Hr']; [done..|].
  unfold bind. rewrite Hr'. reflexivity.
Qed.

(** The sessionId 0 is not checked: [if (input.sessionId)] takes it for an
    omitted one, and the row is stored with it. *)
Lemma logReview_zero_session i context user now s d c :
  identity context = Some user →
  getDeckForUser (logReview.raw_deckId i) (App.id user) s = (Ok d, s) →
  c ∈ cards s → VocabCards.id c = logReview.raw_cardId i →
  VocabCards.deckId c = logReview.raw_deckId i →
  logReview.raw_sessionId i = Some 0 →
  ∃ review,
    logReview.action i context now s =
      (Ok {| success := true; data := Some review |},
       {| decks := decks s; cards := cards s; sessions := sessions s;
          reviews := reviews s ++ [review] |})
    ∧ VocabReviews.sessionId review = Some 0.
Proof.
  intros Hu Hdeck Hc Hcid Hcdk Hsid.
  unfold logReview.action, defineAction, logReview.schema, logReview.handler.
  simpl. rewrite (bind_ok _ _ _ _ _ (requireUser_signed _ _ _ Hu)).
  rewrite (bind_ok _ _ _ _ _ Hdeck).
  unfold bind at 1. unfold db_select at 1. simpl.
  destruct (head_filter_Some
              (λ r, VocabCards.id r = logReview.raw_cardId i
                    ∧ VocabCards.deckId r = logReview.raw_deckId i) (cards s) c)
    as [c' ->]; [done..|].
  rewrite Hsid. eexists. split; [reflexivity|done].
Qed.

(** C2. The claim asks for FORBIDDEN whenever a sessionId is supplied that is
    not a session of the caller.  At sessionId = 0, which no session has, the
    call made by [ann] for a card of her deck does not fail: the session check
    is skipped and a review that refers to session 0 is stored. *)
Theorem logReview_session_zero_unchecked :
  (0 ∉ (VocabStudySessions.id <$> sessions demo_db))
  ∧ ∃ review,
      logReview.action (review_request 1 1 (Some 0)) ann 300 demo_db
      = (Ok {| success := true; data := Some review |},
         {| decks := decks demo_db; cards := cards demo_db;
            sessions := sessions demo_db; reviews := [review] |})
      ∧ VocabReviews.sessionId review = Some 0
      ∧ VocabReviews.userId review = Some "ann".
Proof.
  split.
  - apply (bool_decide_unpack _). vm_compute. exact I.
  - eexists. split; [vm_compute; reflexivity|]. split; reflexivity.
Qed.

(** ** C9 and C10: what the API does to study sessions *)

Lemma set_sessions_userId undef o r :
  VocabStudySessions.userId (set_sessions undef o r) = VocabStudySessions.userId r.
Proof.
  unfold set_sessions. revert r.
  induction o as [|a o IH]; intros r; [done|]. simpl. by rewrite IH.
Qed.

Lemma completeStudySession_sessions undef i context now s :
  keys_ok VocabStudySessions_table s →
  sessions (completeStudySession.action undef i context now s).2 = sessions s
  ∨ ∃ r user,
      identity context = Some user
      ∧ r ∈ sessions s
      ∧ VocabStudySessions.id r = completeStudySession.id i
      ∧ VocabStudySessions.userId r = Some (App.id user)
      ∧ sessions (completeStudySession.action undef i context now s).2
        = (λ x, if decide (VocabStudySessions.id x = completeStudySession.id i)
                then completed_session i now r else x) <$> sessions s.
Proof.
  intros Hkeys.
  destruct (identity context) as [user|] eqn:Hu.
  - destruct (head (filter (λ r, VocabStudySessions.id r = completeStudySession.id i
                               ∧ VocabStudySessions.userId r = Some (App.id user))
                      (sessions s))) as [r|] eqn:Hhead.
    + apply head_Some_elem_of, list_elem_of_filter in Hhead as [[Hid Huser] Hr].
      right. exists r, user. split_and!; try done.
      by rewrite (completeStudySession_found undef i context user now s r).
    + left. apply head_None in Hhead.
      destruct (completeStudySession_missing undef i context user now s Hu) as [m ->];
        [|done].
      intros r Hr HP. eapply filter_nil_not_elem_of; [exact Hhead|exact HP|exact Hr].
  - left. unfold completeStudySession.action, defineAction,
      completeStudySession.schema, completeStudySession.handler, bind, requireUser.
    by rewrite Hu.
Qed.

(** C9, the claim as it is stated, fails: [ann] completes her session at time
    200 with one correct answer, and completes it again at time 300 with
    five; the second call succeeds and rewrites completedAt and
    correctCount of the completed session. *)
Lemma completeStudySession_twice :
  let s1 := serve skip_undefined ann 200
              (CompleteStudySession (finish 1 (Some 1) None)) demo_db in
  let s2 := serve skip_undefined ann 300
              (CompleteStudySession (finish 1 (Some 5) None)) s1 in
  reachable skip_undefined s1
  ∧ (∃ r, head (sessions s1) = Some r
          ∧ VocabStudySessions.id r = 1
          ∧ VocabStudySessions.completedAt r = Some 200
          ∧ VocabStudySessions.correctCount r = 1)
  ∧ (∃ r, head (sessions s2) = Some r
          ∧ VocabStudySessions.id r = 1
          ∧ VocabStudySessions.completedAt r = Some 300
          ∧ VocabStudySessions.correctCount r = 5).
Proof.
  split; [|split].
  - constructor. exact demo_db_reachable.
  - eexists. split; [vm_compute; reflexivity|]. split_and!; reflexivity.
  - eexists. split; [vm_compute; reflexivity|]. split_and!; reflexivity.
Qed.

(** C9, amended. No call other than completeStudySession changes or removes
    a stored session: it leaves the sessions as they are or appends new ones.
    A completeStudySession call either leaves them as they are or rewrites
    the one session with the given id, owned by the caller, into
    [completed_session]: its totalCardsSeen, correctCount, wrongCount,
    summary and completedAt change, its id, deckId, userId, startedAt and
    createdAt do not.  Whether that session was completed before plays no
    part. *)
Theorem sessions_rewritten_only_by_complete (undef : UndefinedPolicy)
    (context : ActionAPIContext) (now : Date) (req : Request) (s : Db) :
  keys_ok VocabStudySessions_table s →
  match req with
  | CompleteStudySession i =>
      sessions (serve undef context now req s) = sessions s
      ∨ ∃ r user,
          identity context = Some user
          ∧ r ∈ sessions s
          ∧ VocabStudySessions.id r = completeStudySession.id i
          ∧ VocabStudySessions.userId r = Some (App.id user)
          ∧ sessions (serve undef context now req s)
            = (λ x, if decide (VocabStudySessions.id x = completeStudySession.id i)
                    then completed_session i now r else x) <$> sessions s
          ∧ VocabStudySessions.id (completed_session i now r)
            = VocabStudySessions.id r
          ∧ VocabStudySessions.deckId (completed_session i now r)
            = VocabStudySessions.deckId r
          ∧ VocabStudySessions.userId (completed_session i now r)
            = VocabStudySessions.userId r
          ∧ VocabStudySessions.startedAt (completed_session i now r)
            = VocabStudySessions.startedAt r
          ∧ VocabStudySessions.createdAt (completed_session i now r)
            = VocabStudySessions.createdAt r
  | _ => ∃ new, sessions (serve undef context now req s) = sessions s ++ new
  end.
Proof.
  intros Hkeys.
  destruct req;
    try (destruct (completeStudySession_sessions undef i context now s Hkeys)
           as [Hsame|(r & user & Hu & Hr & Hid & Huser & Hrun)];
         [by left|right; exists r, user; by split_and!]);
    unfold serve; unfold_actions; run_handler;
    first [ by exists []; rewrite app_nil_r | by eexists [_] ].
Qed.

Lemma sessions_rewritten_only_by_complete_witness :
  (∃ new, sessions (serve skip_undefined ann 200
                      (UpdateDeck (rename 1 "Trips")) demo_db)
          = sessions demo_db ++ new)
  ∧ (sessions (serve skip_undefined bob 200
                 (CompleteStudySession (finish 1 (Some 1) None)) demo_db)
     = sessions demo_db).
Proof.
  assert (Hkeys : keys_ok VocabStudySessions_table demo_db)
    by (apply (bool_decide_unpack _); vm_compute; exact I).
  split.
  - exact (sessions_rewritten_only_by_complete skip_undefined ann 200
             (UpdateDeck (rename 1 "Trips")) demo_db Hkeys).
  - destruct (sessions_rewritten_only_by_complete skip_undefined bob 200
                (CompleteStudySession (finish 1 (Some 1) None)) demo_db Hkeys)
      as [Hsame|(r & user & _)]; [exact Hsame|reflexivity].
Defined.

Lemma serve_sessions_userId undef context now req s :
  Forall (λ r, is_Some (VocabStudySessions.userId r)) (sessions s) →
  Forall (λ r, is_Some (VocabStudySessions.userId r))
    (sessions (serve undef context now req s)).
Proof.
  intros Hall.
  destruct req; unfold serve; unfold_actions; run_handler; try done.
  - apply Forall_app. split; [done|]. repeat constructor. by eexists.
  - apply Forall_fmap. eapply Forall_impl; [exact Hall|].
    intros x Hx. simpl. destruct (decide _); [|done].
    by rewrite set_sessions_userId.
Qed.

(** C10. A startStudySession call that succeeds was made by a signed-in
    caller and appends one session whose userId is that caller's id; no call
    of the API leaves a session without userId in a store that had none, so
    no store the API reaches from the empty one holds a session with a null
    userId. *)
Theorem sessions_have_a_user :
  (∀ i context now s env s',
     startStudySession.action i context now s = (Ok env, s') →
     ∃ user r,
       identity context = Some user
       ∧ data env = Some r
       ∧ VocabStudySessions.userId r = Some (App.id user)
       ∧ sessions s' = sessions s ++ [r])
  ∧ (∀ undef context now req s,
       Forall (λ r, is_Some (VocabStudySessions.userId r)) (sessions s) →
       Forall (λ r, is_Some (VocabStudySessions.userId r))
         (sessions (serve undef context now req s)))
  ∧ (∀ undef s,
       reachable undef s →
       Forall (λ r, is_Some (VocabStudySessions.userId r)) (sessions s)).
Proof.
  split; [|split].
  - intros i context now s env s' Hrun.
    unfold_actions. run_handler. eexists _, _. by split_and!.
  - apply serve_sessions_userId.
  - intros undef s Hs. induction Hs as [|context now req s _ IH]; [constructor|].
    by apply serve_sessions_userId.
Qed.

Lemma sessions_have_a_user_witness :
  reachable skip_undefined demo_db
  ∧ Forall (λ r, is_Some (VocabStudySessions.userId r)) (sessions demo_db).
Proof.
  split; [exact demo_db_reachable|].
  exact (proj2 (proj2 sessions_have_a_user) skip_undefined demo_db demo_db_reachable).
Defined.

(** * Further properties of the handlers *)

(** ** Callers without identity, failed calls, read-only calls *)

(** X1. A call made without a signed-in user never touches the store and
    always fails: with UNAUTHORIZED, thrown by [requireUser], whenever the
    request passes its input constraints. *)
Theorem anonymous_call_refused (undef : UndefinedPolicy) (context : ActionAPIContext)
    (now : Date) (req : Request) (s : Db) :
  identity context = None →
  serve undef context now req s = s
  ∧ ∃ e, failure undef context now req s = Some e
         ∧ (input_error req = None → code e = UNAUTHORIZED).
Proof.
  intros Hu.
  destruct req; unfold serve, failure, input_error; unfold_actions; run_handler;
    (split; [done|]); eexists; (split; [reflexivity|]); done.
Qed.

Lemma anonymous_call_refused_witness :
  serve skip_undefined anonymous 200 (UpsertCard (card_request None 1 "tree" "Baum" None))
    demo_db = demo_db
  ∧ ∃ e, failure skip_undefined anonymous 200
           (UpsertCard (card_request None 1 "tree" "Baum" None)) demo_db = Some e
         ∧ code e = UNAUTHORIZED.
Proof.
  destruct (anonymous_call_refused skip_undefined anonymous 200
              (UpsertCard (card_request None 1 "tree" "Baum" None)) demo_db eq_refl)
    as (Hsame & e & He & Hcode).
  split; [exact Hsame|]. exists e. split; [exact He|]. by apply Hcode.
Defined.

(** X2. A call that ends with an error has written nothing: every throw of
    every handler comes before its first write. *)
Theorem failed_call_writes_nothing (undef : UndefinedPolicy)
    (context : ActionAPIContext) (now : Date) (req : Request) (s : Db) (e : ActionError) :
  failure undef context now req s = Some e →
  serve undef context now req s = s.
Proof.
  destruct req; unfold serve, failure; unfold_actions; run_handler; done.
Qed.

Lemma failed_call_writes_nothing_witness :
  failure skip_undefined bob 200 (UpdateDeck (rename 1 "Mine")) demo_db
    = Some {| code := FORBIDDEN; message := "You do not have access to this deck." |}
  ∧ serve skip_undefined bob 200 (UpdateDeck (rename 1 "Mine")) demo_db = demo_db.
Proof.
  split; [reflexivity|].
  exact (failed_call_writes_nothing skip_undefined bob 200 (UpdateDeck (rename 1 "Mine"))
           demo_db _ eq_refl).
Defined.

(** ** listCards *)

Lemma snoc_perm {A} (l : list A) (x : A) : l ++ [x] ≡ₚ x :: l.
Proof. symmetry. apply Permutation_cons_append. Qed.

Lemma listCards_runs i context user now s d :
  identity context = Some user →
  getDeckForUser (listCards.raw_deckId i) (App.id user) s = (Ok d, s) →
  listCards.action i context now s =
    (Ok {| success := true;
           data :=
             {| items :=
                  if default false (listCards.raw_includeInactive i)
                  then filter (λ c, VocabCards.deckId c = listCards.raw_deckId i)
                         (cards s)
                  else filter (λ c, VocabCards.deckId c = listCards.raw_deckId i
                                    ∧ VocabCards.isActive c = true) (cards s);
                total :=
                  length
                    (if default false (listCards.raw_includeInactive i)
                     then filter (λ c, VocabCards.deckId c = listCards.raw_deckId i)
                            (cards s)
                     else filter (λ c, VocabCards.deckId c = listCards.raw_deckId i
                                       ∧ VocabCards.isActive c = true) (cards s)) |} |},
     s).
Proof.
  intros Hu Hdeck.
  unfold listCards.action, defineAction, listCards.schema, listCards.handler. simpl.
  rewrite (bind_ok _ _ _ _ _ (requireUser_signed _ _ _ Hu)).
  rewrite (bind_ok _ _ _ _ _ Hdeck).
  by destruct (default false (listCards.raw_includeInactive i)).
Qed.

(** X4. For a signed-in owner of the deck, listCards returns exactly the
    stored cards whose deckId is the requested one, only those with isActive
    = true unless includeInactive is true, each as often as it is stored and
    in no promised order; no card of another deck is listed, total is the
    number of items and the store is left as it was. *)
Theorem listCards_of_owned_deck (i : listCards.raw) (context : ActionAPIContext)
    (user : App.User) (now : Date) (s : Db) (d : VocabDecks.row) :
  identity context = Some user →
  getDeckForUser (listCards.raw_deckId i) (App.id user) s = (Ok d, s) →
  ∃ page,
    listCards.action i context now s = (Ok {| success := true; data := page |}, s)
    ∧ total page = length (items page)
    ∧ items page ≡ₚ
        (if default false (listCards.raw_includeInactive i)
         then filter (λ c, VocabCards.deckId c = listCards.raw_deckId i) (cards s)
         else filter (λ c, VocabCards.deckId c = listCards.raw_deckId i
                           ∧ VocabCards.isActive c = true) (cards s))
    ∧ (∀ c, c ∈ items page ↔
         c ∈ cards s ∧ VocabCards.deckId c = listCards.raw_deckId i
         ∧ (listCards.raw_includeInactive i ≠ Some true → VocabCards.isActive c = true)).
Proof.
  intros Hu Hdeck. eexists.
  split; [by apply (listCards_runs i context user now s d)|].
  simpl. split; [done|]. split; [done|].
  intros c. destruct (listCards.raw_includeInactive i) as [[]|]; simpl;
    rewrite list_elem_of_filter; intuition congruence.
Qed.

Lemma listCards_of_owned_deck_witness :
  ∃ page,
    listCards.action (cards_of 1 None) ann 200 demo_db
      = (Ok {| success := true; data := page |}, demo_db)
    ∧ items page ≡ₚ [book_card]
    ∧ total page = 1%nat.
Proof.
  destruct (listCards_of_owned_deck (cards_of 1 None) ann {| App.id := "ann" |} 200
              demo_db travel_deck eq_refl eq_refl) as (page & Hrun & Htotal & Hitems & _).
  exists page. split; [exact Hrun|]. split; [exact Hitems|].
  rewrite Htotal. by rewrite Hitems.
Defined.

(** ** createDeck *)

Lemma min1_true s : s ≠ "" → min1 s = true.
Proof. intros Hs. unfold min1. by rewrite (proj2 (String.eqb_neq s "") Hs). Qed.

Lemma createDeck_runs i context user now s :
  identity context = Some user →
  createDeck.title i ≠ "" →
  createDeck.action i context now s =
    (Ok {| success := true;
           data := Some (created_deck i user now
                           (autoIncrement (VocabDecks.id <$> decks s))) |},
     {| decks := decks s
                 ++ [created_deck i user now (autoIncrement (VocabDecks.id <$> decks s))];
        cards := cards s; sessions := sessions s; reviews := reviews s |}).
Proof.
  intros Hu Ht.
  unfold createDeck.action, defineAction, createDeck.schema.
  rewrite min1_true by done. unfold createDeck.handler.
  by rewrite (bind_ok _ _ _ _ _ (requireUser_signed _ _ _ Hu)).
Qed.

(** X5. createDeck by a signed-in caller with a non-empty title appends one
    deck and returns it: its key is fresh and positive, its owner is the
    caller, fromLanguage and toLanguage default to "en", level to mixed,
    isActive to true, description and tags stay empty when omitted, createdAt
    and updatedAt are the current time; nothing else in the store changes. *)
Theorem createDeck_appends (i : createDeck.input) (context : ActionAPIContext)
    (user : App.User) (now : Date) (s : Db) :
  identity context = Some user →
  createDeck.title i ≠ "" →
  ∃ deck,
    createDeck.action i context now s =
      (Ok {| success := true; data := Some deck |},
       {| decks := decks s ++ [deck];
          cards := cards s; sessions := sessions s; reviews := reviews s |})
    ∧ 0 < VocabDecks.id deck
    ∧ (∀ d, d ∈ decks s → VocabDecks.id d < VocabDecks.id deck)
    ∧ VocabDecks.ownerId deck = App.id user
    ∧ VocabDecks.title deck = createDeck.title i
    ∧ VocabDecks.description deck = createDeck.description i
    ∧ VocabDecks.fromLanguage deck = default "en" (createDeck.fromLanguage i)
    ∧ VocabDecks.toLanguage deck = default "en" (createDeck.toLanguage i)
    ∧ VocabDecks.level deck = default mixed (createDeck.level i)
    ∧ VocabDecks.tags deck = createDeck.tags i
    ∧ VocabDecks.isActive deck = default true (createDeck.isActive i)
    ∧ VocabDecks.createdAt deck = now
    ∧ VocabDecks.updatedAt deck = now.
Proof.
  intros Hu Ht. eexists. split; [by apply createDeck_runs|].
  destruct (autoIncrement_fresh (VocabDecks.id <$> decks s)) as [Hlt Hpos].
  split; [done|]. split; [|by split_and!].
  intros d Hd. rewrite Forall_fmap, Forall_forall in Hlt. by apply Hlt.
Qed.

Lemma createDeck_appends_witness :
  ∃ deck,
    (createDeck.action (new_deck "Food") ann 200 demo_db).1
      = Ok {| success := true; data := Some deck |}
    ∧ VocabDecks.id deck = 3
    ∧ VocabDecks.fromLanguage deck = "en"
    ∧ VocabDecks.toLanguage deck = "de".
Proof.
  assert (Htitle : createDeck.title (new_deck "Food") ≠ "") by discriminate.
  destruct (createDeck_appends (new_deck "Food") ann {| App.id := "ann" |} 200 demo_db
              eq_refl Htitle) as (deck & Hrun & _ & _ & _ & _ & _ & Hfrom & Hto & _).
  exists deck. rewrite Hrun. split; [reflexivity|].
  split; [|split; [by rewrite Hfrom|by rewrite Hto]].
  injection Hrun as Hdeck _. by rewrite <- Hdeck.
Defined.

(** X6. The deck that createDeck returns is at once the caller's: in the
    store the call leaves, [getDeckForUser] resolves its key for the caller to
    that very deck and refuses any other identity with FORBIDDEN. *)
Theorem created_deck_belongs_to_caller (i : createDeck.input)
    (context : ActionAPIContext) (now : Date) (s s' : Db)
    (env : Envelope (option VocabDecks.row)) :
  keys_ok VocabDecks_table s →
  createDeck.action i context now s = (Ok env, s') →
  ∃ user deck,
    identity context = Some user
    ∧ data env = Some deck
    ∧ getDeckForUser (VocabDecks.id deck) (App.id user) s' = (Ok deck, s')
    ∧ (∀ other, other ≠ App.id user →
         rejects (getDeckForUser (VocabDecks.id deck) other) FORBIDDEN s').
Proof.
  intros Hkeys Hrun.
  destruct (identity context) as [user|] eqn:Hu;
    [|unfold_actions; run_handler; congruence].
  destruct (decide (createDeck.title i = "")) as [Ht|Ht];
    [unfold createDeck.action, defineAction, createDeck.schema in Hrun;
     by rewrite Ht in Hrun|].
  rewrite (createDeck_runs i context user now s Hu Ht) in Hrun.
  injection Hrun as <- <-. eexists user, _. split; [done|]. split; [done|].
  set (deck := created_deck i user now (autoIncrement (VocabDecks.id <$> decks s))).
  set (s' := {| decks := decks s ++ [deck]; cards := cards s;
                sessions := sessions s; reviews := reviews s |}).
  assert (Hkeys' : keys_ok VocabDecks_table s')
    by (unfold keys_ok; simpl; by apply keys_list_ok_insert).
  assert (Hin : deck ∈ decks s') by (simpl; apply elem_of_app; right; left).
  split.
  - rewrite (getDeckForUser_found _ _ _ deck) by done.
    by rewrite decide_False by (by intros []).
  - intros other Hother. unfold rejects.
    rewrite (getDeckForUser_found _ _ _ deck) by done.
    rewrite decide_True by (simpl; congruence). by eexists.
Qed.

Lemma created_deck_belongs_to_caller_witness :
  ∃ deck s',
    createDeck.action (new_deck "Food") ann 200 demo_db
      = (Ok {| success := true; data := Some deck |}, s')
    ∧ getDeckForUser (VocabDecks.id deck) "ann" s' = (Ok deck, s')
    ∧ rejects (getDeckForUser (VocabDecks.id deck) "bob") FORBIDDEN s'.
Proof.
  assert (Hkeys : keys_ok VocabDecks_table demo_db)
    by (apply (bool_decide_unpack _); vm_compute; exact I).
  eexists _, _. split; [reflexivity|].
  destruct (created_deck_belongs_to_caller (new_deck "Food") ann 200 demo_db _ _
              Hkeys eq_refl) as (user & deck & Hu & Hdata & Hmine & Hother).
  injection Hu as <-. injection Hdata as <-.
  split; [exact Hmine|]. apply Hother. discriminate.
Defined.

(** ** upsertCard *)

Lemma upsertCard_inserts undef i context user now s d :
  identity context = Some user →
  upsertCard.schema i = Ok i →
  getDeckForUser (upsertCard.deckId i) (App.id user) s = (Ok d, s) →
  truthy (upsertCard.id i) = None →
  upsertCard.action undef i context now s =
    (Ok {| success := true;
           data := Some (inserted_card i (autoIncrement (VocabCards.id <$> cards s))) |},
     {| decks := decks s;
        cards := cards s ++ [inserted_card i (autoIncrement (VocabCards.id <$> cards s))];
        sessions := sessions s; reviews := reviews s |}).
Proof.
  intros Hu Hschema Hdeck Hid.
  unfold upsertCard.action, defineAction. rewrite Hschema.
  unfold upsertCard.handler.
  rewrite (bind_ok _ _ _ _ _ (requireUser_signed _ _ _ Hu)).
  rewrite (bind_ok _ _ _ _ _ Hdeck).
  by rewrite Hid.
Qed.

(** X7. upsertCard without an id (or with the id 0), by a signed-in owner of
    the deck, stores one new card under a fresh key: displayOrder defaults to
    0, isActive to true, the other fields are the request's.  A listCards
    call for that deck then returns the cards it returned before and the new
    card, one item more, in no promised order, unless the card was stored
    inactive and inactive cards are not asked for: then it returns the same
    cards as before. *)
Theorem upsertCard_insert_then_list (undef : UndefinedPolicy) (i : upsertCard.input)
    (context : ActionAPIContext) (user : App.User) (now later : Date) (s : Db)
    (d : VocabDecks.row) (includeInactive : option bool) :
  identity context = Some user →
  upsertCard.schema i = Ok i →
  getDeckForUser (upsertCard.deckId i) (App.id user) s = (Ok d, s) →
  truthy (upsertCard.id i) = None →
  ∃ card s' before after,
    upsertCard.action undef i context now s
      = (Ok {| success := true; data := Some card |}, s')
    ∧ cards s' ≡ₚ card :: cards s
    ∧ (∀ c, c ∈ cards s → VocabCards.id c < VocabCards.id card)
    ∧ VocabCards.deckId card = upsertCard.deckId i
    ∧ VocabCards.displayOrder card = default 0 (upsertCard.displayOrder i)
    ∧ VocabCards.isActive card = default true (upsertCard.isActive i)
    ∧ VocabCards.term card = upsertCard.term i
    ∧ VocabCards.translation card = upsertCard.translation i
    ∧ (listCards.action (cards_of (upsertCard.deckId i) includeInactive)
         context later s).1
      = Ok {| success := true; data := before |}
    ∧ (listCards.action (cards_of (upsertCard.deckId i) includeInactive)
         context later s').1
      = Ok {| success := true; data := after |}
    ∧ (if default false includeInactive || default true (upsertCard.isActive i)
       then items after ≡ₚ card :: items before ∧ total after = S (total before)
       else items after ≡ₚ items before ∧ total after = total before).
Proof.
  intros Hu Hschema Hdeck Hid.
  set (card := inserted_card i (autoIncrement (VocabCards.id <$> cards s))).
  set (s' := {| decks := decks s; cards := cards s ++ [card];
                sessions := sessions s; reviews := reviews s |}).
  assert (Hdeck' : getDeckForUser (upsertCard.deckId i) (App.id user) s' = (Ok d, s')).
  { revert Hdeck. unfold getDeckForUser, bind, db_select, s'; simpl.
    destruct (head _); [|by intros [=]].
    destruct (decide _); intros [= <-]; done. }
  eexists card, s', _, _.
  split; [by apply (upsertCard_inserts undef i context user now s d)|].
  split; [unfold s'; simpl; apply snoc_perm|].
  split.
  { intros c Hc.
    destruct (autoIncrement_fresh (VocabCards.id <$> cards s)) as [Hlt _].
    rewrite Forall_fmap, Forall_forall in Hlt. by apply Hlt. }
  rewrite (listCards_runs (cards_of (upsertCard.deckId i) includeInactive)
             context user later s d) by done.
  rewrite (listCards_runs (cards_of (upsertCard.deckId i) includeInactive)
             context user later s' d) by done.
  split_and!; try done. simpl.
  destruct (default false includeInactive); simpl.
  - rewrite filter_app, filter_cons_True, filter_nil by done.
    split; [apply snoc_perm|by rewrite length_app, Nat.add_1_r].
  - rewrite filter_app, filter_cons, filter_nil.
    destruct (default true (upsertCard.isActive i)) eqn:Hactive.
    + rewrite decide_True by done.
      split; [apply snoc_perm|by rewrite length_app, Nat.add_1_r].
    + rewrite decide_False by (simpl; rewrite Hactive; by intros [_ ?]).
      by rewrite app_nil_r.
Qed.

Lemma upsertCard_insert_then_list_witness :
  ∃ card after,
    (upsertCard.action skip_undefined (card_request None 1 "tree" "Baum" None)
       ann 200 demo_db).1 = Ok {| success := true; data := Some card |}
    ∧ VocabCards.id card = 3
    ∧ (listCards.action (cards_of 1 None) ann 210
         (upsertCard.action skip_undefined (card_request None 1 "tree" "Baum" None)
            ann 200 demo_db).2).1
      = Ok {| success := true; data := after |}
    ∧ items after ≡ₚ [card; book_card]
    ∧ total after = 2%nat.
Proof.
  destruct (upsertCard_insert_then_list skip_undefined
              (card_request None 1 "tree" "Baum" None) ann {| App.id := "ann" |}
              200 210 demo_db travel_deck None eq_refl eq_refl eq_refl eq_refl)
    as (card & s' & before & after & Hrun & _ & _ & _ & _ & _ & _ & _
        & Hbefore & Hafter & Hitems & Htotal).
  cbn [upsertCard.deckId card_request upsertCard.isActive] in Hbefore, Hafter.
  exists card, after. rewrite Hrun. cbn [fst snd].
  split; [reflexivity|]. split; [injection Hrun as <- _; reflexivity|].
  split; [exact Hafter|].
  injection Hbefore as <-. split; [exact Hitems|exact Htotal].
Defined.

(** X8. upsertCard with a non-zero id that is not the id of a card of the
    requested deck fails with NOT_FOUND and writes nothing; this holds in
    particular for the id of a card of another deck, so a card cannot be
    moved or overwritten across decks. *)
Theorem upsertCard_rejects_foreign_card (undef : UndefinedPolicy)
    (i : upsertCard.input) (context : ActionAPIContext) (user : App.User)
    (now : Date) (s : Db) (d : VocabDecks.row) (k : Z) :
  keys_ok VocabCards_table s →
  identity context = Some user →
  upsertCard.schema i = Ok i →
  getDeckForUser (upsertCard.deckId i) (App.id user) s = (Ok d, s) →
  upsertCard.id i = Some k → k ≠ 0 →
  ((∀ c, c ∈ cards s → VocabCards.id c ≠ k) →
     rejects (upsertCard.action undef i context now) NOT_FOUND s)
  ∧ (∀ c, c ∈ cards s → VocabCards.id c = k →
       VocabCards.deckId c ≠ upsertCard.deckId i →
       rejects (upsertCard.action undef i context now) NOT_FOUND s).
Proof.
  intros Hkeys Hu Hschema Hdeck Hid Hk. split.
  - intros Hno. eapply upsertCard_unknown_card; eauto.
    intros c Hc [Hck _]. by apply (Hno c).
  - intros c Hc Hck Hcd. by eapply upsertCard_other_deck_card.
Qed.

Lemma upsertCard_rejects_foreign_card_witness :
  rejects (upsertCard.action skip_undefined (card_request (Some 2) 1 "go" "geht" None)
             ann 200) NOT_FOUND demo_db.
Proof.
  assert (Hkeys : keys_ok VocabCards_table demo_db)
    by (apply (bool_decide_unpack _); vm_compute; exact I).
  assert (Hk : (2 : Z) ≠ 0) by discriminate.
  destruct (upsertCard_rejects_foreign_card skip_undefined
              (card_request (Some 2) 1 "go" "geht" None) ann {| App.id := "ann" |}
              200 demo_db travel_deck 2 Hkeys eq_refl eq_refl eq_refl eq_refl Hk)
    as [_ Hforeign].
  eapply Hforeign;
    [eapply (list_elem_of_lookup_2 _ 1%nat); reflexivity|reflexivity|discriminate].
Defined.

Lemma write_nullable_twice {A} undef (v : option A) (old : option A) :
  write_nullable undef (optional v) (write_nullable undef (optional v) old)
  = write_nullable undef (optional v) old.
Proof. by destruct undef, v. Qed.

Lemma updated_card_twice undef i card :
  updated_card undef i (updated_card undef i card) = updated_card undef i card.
Proof.
  unfold updated_card; simpl. rewrite !write_nullable_twice.
  by destruct (upsertCard.displayOrder i), (upsertCard.isActive i).
Qed.

Lemma fmap_update_twice {R} (key : R → Z) (k : Z) (x : R) (l : list R) :
  key x = k →
  (λ r, if decide (key r = k) then x else r)
    <$> ((λ r, if decide (key r = k) then x else r) <$> l)
  = (λ r, if decide (key r = k) then x else r) <$> l.
Proof.
  intros Hx. rewrite <- list_fmap_compose. apply list_fmap_ext.
  intros n r _. simpl. destruct (decide (key r = k)) as [|Hne].
  - by rewrite decide_True.
  - by rewrite decide_False.
Qed.

Lemma getDeckForUser_same_decks deckId userId s s' :
  decks s' = decks s →
  (getDeckForUser deckId userId s').1 = (getDeckForUser deckId userId s).1.
Proof.
  intros Hdecks. unfold getDeckForUser, bind, db_select; simpl. rewrite Hdecks.
  destruct (head _); [|done]. by destruct (decide _).
Qed.

Lemma getDeckForUser_read_only deckId userId s :
  getDeckForUser deckId userId s = ((getDeckForUser deckId userId s).1, s).
Proof.
  destruct (getDeckForUser deckId userId s) as [r s'] eqn:Hrun.
  by destruct (getDeckForUser_inv _ _ _ _ _ Hrun) as [-> _].
Qed.

(** X9. upsertCard with the id of a card of the deck is idempotent: the same
    request served again, at any later time, returns the same card and
    leaves the store as the first call left it, whichever way the store
    treats [undefined]. *)
Theorem upsertCard_update_idempotent (undef : UndefinedPolicy) (i : upsertCard.input)
    (context : ActionAPIContext) (user : App.User) (now later : Date) (s : Db)
    (d : VocabDecks.row) (k : Z) (card : VocabCards.row) :
  keys_ok VocabCards_table s →
  identity context = Some user →
  upsertCard.schema i = Ok i →
  getDeckForUser (upsertCard.deckId i) (App.id user) s = (Ok d, s) →
  upsertCard.id i = Some k →
  card ∈ cards s → VocabCards.id card = k → VocabCards.deckId card = upsertCard.deckId i →
  upsertCard.action undef i context later (upsertCard.action undef i context now s).2
  = upsertCard.action undef i context now s.
Proof.
  intros Hkeys Hu Hschema Hdeck Hid Hcard Hk Hdk.
  rewrite (upsertCard_updates undef i context user now s d k card) by done. simpl.
  set (s' := {| decks := decks s;
                cards := (λ r, if decide (VocabCards.id r = k)
                               then updated_card undef i card else r) <$> cards s;
                sessions := sessions s; reviews := reviews s |}).
  assert (Hkeys' : keys_ok VocabCards_table s').
  { unfold keys_ok; simpl.
    rewrite <- list_fmap_compose.
    erewrite list_fmap_ext; [exact Hkeys|].
    intros n r _. simpl. destruct (decide _); [|done]. simpl. congruence. }
  assert (Hdeck' : getDeckForUser (upsertCard.deckId i) (App.id user) s' = (Ok d, s')).
  { rewrite getDeckForUser_read_only.
    rewrite (getDeckForUser_same_decks _ _ s) by done. by rewrite Hdeck. }
  assert (Hcard' : updated_card undef i card ∈ cards s').
  { simpl. apply list_elem_of_fmap. exists card. split; [|done].
    by rewrite decide_True. }
  rewrite (upsertCard_updates undef i context user later s' d k
             (updated_card undef i card)) by done.
  rewrite updated_card_twice. f_equal. unfold s'; simpl. f_equal.
  by apply (fmap_update_twice VocabCards.id).
Qed.

Lemma upsertCard_update_idempotent_witness :
  upsertCard.action null_undefined (card_request (Some 1) 1 "book" "Buch" None) ann 210
    (upsertCard.action null_undefined (card_request (Some 1) 1 "book" "Buch" None)
       ann 200 demo_db).2
  = upsertCard.action null_undefined (card_request (Some 1) 1 "book" "Buch" None)
      ann 200 demo_db.
Proof.
  assert (Hkeys : keys_ok VocabCards_table demo_db)
    by (apply (bool_decide_unpack _); vm_compute; exact I).
  apply (upsertCard_update_idempotent null_undefined
           (card_request (Some 1) 1 "book" "Buch" None) ann {| App.id := "ann" |}
           200 210 demo_db travel_deck 1 book_card Hkeys eq_refl eq_refl eq_refl eq_refl);
    [eapply (list_elem_of_lookup_2 _ 0%nat); reflexivity|reflexivity|reflexivity].
Defined.

(** ** What a call can do to each table *)

Lemma head_filter_elem {R} (P : R → Prop) `{!∀ r, Decision (P r)} (l : list R) (x : R) :
  head (filter P l) = Some x → x ∈ l ∧ P x.
Proof.
  intros Hhead. apply head_Some_elem_of, list_elem_of_filter in Hhead. tauto.
Qed.

Lemma truthy_inv v k : truthy v = Some k → v = Some k ∧ k ≠ 0.
Proof.
  destruct v as [n|]; simpl; [|done].
  destruct (Z.eqb_spec n 0); [done|]. by intros [= <-].
Qed.

Ltac use_heads :=
  repeat match goal with
         | H : head (filter _ _) = Some _ |- _ =>
             apply head_filter_elem in H; destruct H as [? ?]
         | H : _ ∧ _ |- _ => destruct H
         | H : ¬ (?a ≠ ?b) |- _ =>
             assert (a = b) by (by apply dec_stable); clear dependent H
         end.

Lemma serve_decks_shape undef context now req s :
  decks (serve undef context now req s) = decks s
  ∨ (∃ i user,
       req = CreateDeck i ∧ identity context = Some user
       ∧ decks (serve undef context now req s)
         = decks s ++ [created_deck i user now (autoIncrement (VocabDecks.id <$> decks s))])
  ∨ (∃ i user d,
       req = UpdateDeck i ∧ identity context = Some user
       ∧ d ∈ decks s ∧ VocabDecks.id d = updateDeck.id i
       ∧ VocabDecks.ownerId d = App.id user
       ∧ decks (serve undef context now req s)
         = (λ r, if decide (VocabDecks.id r = updateDeck.id i)
                 then set_decks undef (updateDeck.changes i now) r else r) <$> decks s).
Proof.
  destruct req; unfold serve; unfold_actions; run_handler; use_heads;
    first [ by left
          | right; left; eexists _, _; by split_and!
          | right; right; eexists _, _, _; by split_and! ].
Qed.

Lemma serve_cards_shape undef context now req s :
  cards (serve undef context now req s) = cards s
  ∨ (∃ i user d,
       req = UpsertCard i ∧ identity context = Some user
       ∧ d ∈ decks s ∧ VocabDecks.id d = upsertCard.deckId i
       ∧ VocabDecks.ownerId d = App.id user
       ∧ cards (serve undef context now req s)
         = cards s ++ [inserted_card i (autoIncrement (VocabCards.id <$> cards s))])
  ∨ (∃ i user d k card,
       req = UpsertCard i ∧ identity context = Some user
       ∧ d ∈ decks s ∧ VocabDecks.id d = upsertCard.deckId i
       ∧ VocabDecks.ownerId d = App.id user
       ∧ card ∈ cards s ∧ VocabCards.id card = k
       ∧ VocabCards.deckId card = upsertCard.deckId i
       ∧ cards (serve undef context now req s)
         = (λ r, if decide (VocabCards.id r = k)
                 then set_cards undef (upsertCard.changes i card) r else r) <$> cards s).
Proof.
  destruct req; unfold serve; unfold_actions; run_handler; use_heads;
    first [ by left
          | right; left; eexists _, _, _; by split_and!
          | right; right; eexists _, _, _, _, _; by split_and! ].
Qed.

Lemma serve_sessions_shape undef context now req s :
  sessions (serve undef context now req s) = sessions s
  ∨ (∃ i user d,
       req = StartStudySession i ∧ identity context = Some user
       ∧ d ∈ decks s ∧ VocabDecks.id d = startStudySession.deckId i
       ∧ VocabDecks.ownerId d = App.id user
       ∧ sessions (serve undef context now req s)
         = sessions s
           ++ [started_session (startStudySession.deckId i) user now
                 (autoIncrement (VocabStudySessions.id <$> sessions s))])
  ∨ (∃ i user r,
       req = CompleteStudySession i ∧ identity context = Some user
       ∧ r ∈ sessions s ∧ VocabStudySessions.id r = completeStudySession.id i
       ∧ VocabStudySessions.userId r = Some (App.id user)
       ∧ sessions (serve undef context now req s)
         = (λ x, if decide (VocabStudySessions.id x = completeStudySession.id i)
                 then set_sessions undef (completeStudySession.changes i r now) x
                 else x) <$> sessions s).
Proof.
  destruct req; unfold serve; unfold_actions; run_handler; use_heads;
    first [ by left
          | right; left; eexists _, _, _; by split_and!
          | right; right; eexists _, _, _; by split_and! ].
Qed.

Lemma serve_reviews_shape undef context now req s :
  reviews (serve undef context now req s) = reviews s
  ∨ (∃ i user d c,
       req = LogReview i ∧ identity context = Some user
       ∧ d ∈ decks s ∧ VocabDecks.id d = logReview.raw_deckId i
       ∧ VocabDecks.ownerId d = App.id user
       ∧ c ∈ cards s ∧ VocabCards.id c = logReview.raw_cardId i
       ∧ VocabCards.deckId c = logReview.raw_deckId i
       ∧ (∀ k, logReview.raw_sessionId i = Some k → k ≠ 0 →
            ∃ r, r ∈ sessions s ∧ VocabStudySessions.id r = k
                 ∧ VocabStudySessions.userId r = Some (App.id user))
       ∧ reviews (serve undef context now req s)
         = reviews s
           ++ [logged_review i user now (autoIncrement (VocabReviews.id <$> reviews s))]).
Proof.
  destruct req; unfold serve; unfold_actions; run_handler; use_heads;
    first [ by left
          | right; eexists _, _, _, _; split_and!; try done ].
  all: intros k Hk Hnz;
    match goal with
    | H : truthy _ = Some _ |- _ =>
        apply truthy_inv in H; destruct H as [H _]; rewrite Hk in H;
        injection H as <-; by eexists
    | H : truthy _ = None |- _ =>
        rewrite Hk in H; simpl in H;
        by rewrite (proj2 (Z.eqb_neq k 0) Hnz) in H
    end.
Qed.

(** ** What no call changes *)

Lemma fmap_update_keeps {R B} (g : R → B) (f : R → R) (P : R → Prop)
    `{!∀ r, Decision (P r)} (l : list R) :
  (∀ r, r ∈ l → P r → g (f r) = g r) →
  g <$> ((λ r, if decide (P r) then f r else r) <$> l) = g <$> l.
Proof.
  intros Hkeep. rewrite <- list_fmap_compose. apply list_fmap_ext.
  intros n r Hr. simpl. destruct (decide _); [|done].
  apply Hkeep; [|done]. by eapply list_elem_of_lookup_2.
Qed.

Lemma set_decks_identity undef o r : deck_identity (set_decks undef o r) = deck_identity r.
Proof.
  unfold set_decks. revert r.
  induction o as [|a o IH]; intros r; [done|]. simpl. by rewrite IH.
Qed.

Lemma set_sessions_identity undef o r :
  session_identity (set_sessions undef o r) = session_identity r.
Proof.
  unfold set_sessions. revert r.
  induction o as [|a o IH]; intros r; [done|]. simpl. by rewrite IH.
Qed.

Lemma set_sessions_completedAt undef i r0 now r :
  VocabStudySessions.completedAt
    (set_sessions undef (completeStudySession.changes i r0 now) r)
  = Some (default now (completeStudySession.completedAt i)).
Proof. by rewrite set_sessions_changes. Qed.

Lemma serve_decks_identity undef context now req s :
  deck_identity <$> decks s
    `prefix_of` deck_identity <$> decks (serve undef context now req s).
Proof.
  destruct (serve_decks_shape undef context now req s)
    as [->|[(i & user & _ & _ & ->)|(i & user & d & _ & _ & _ & _ & _ & ->)]].
  - done.
  - rewrite fmap_app. by apply prefix_app_r.
  - rewrite fmap_update_keeps; [done|]. intros r _ _. apply set_decks_identity.
Qed.

Lemma serve_cards_identity undef context now req s :
  keys_ok VocabCards_table s →
  card_identity <$> cards s
    `prefix_of` card_identity <$> cards (serve undef context now req s).
Proof.
  intros [Hnd _].
  destruct (serve_cards_shape undef context now req s)
    as [->|[(i & user & d & _ & _ & _ & _ & _ & ->)
           |(i & user & d & k & card & _ & _ & _ & _ & _ & Hc & Hk & Hdk & ->)]].
  - done.
  - rewrite fmap_app. by apply prefix_app_r.
  - rewrite fmap_update_keeps; [done|]. intros r Hr Hrk.
    assert (r = card) as -> by (apply (key_unique VocabCards.id (cards s));
                                [done..|congruence]).
    rewrite set_cards_changes. unfold card_identity. simpl. by rewrite Hdk.
Qed.

Lemma serve_sessions_identity undef context now req s :
  session_identity <$> sessions s
    `prefix_of` session_identity <$> sessions (serve undef context now req s).
Proof.
  destruct (serve_sessions_shape undef context now req s)
    as [->|[(i & user & d & _ & _ & _ & _ & _ & ->)
           |(i & user & r & _ & _ & _ & _ & _ & ->)]].
  - done.
  - rewrite fmap_app. by apply prefix_app_r.
  - rewrite fmap_update_keeps; [done|]. intros x _ _. apply set_sessions_identity.
Qed.

Lemma prefix_fmap_lookup {R B} (g : R → B) (l l' : list R) (n : nat) (x : R) :
  g <$> l `prefix_of` g <$> l' → l !! n = Some x →
  ∃ x', l' !! n = Some x' ∧ g x' = g x.
Proof.
  intros Hpre Hx.
  assert (Hn : (g <$> l') !! n = Some (g x)).
  { eapply prefix_lookup_Some; [|exact Hpre]. by rewrite list_lookup_fmap, Hx. }
  rewrite list_lookup_fmap in Hn.
  destruct (l' !! n) as [x'|]; [|done]. exists x'. split; [done|].
  by injection Hn.
Qed.

(** X10. No call removes or reorders a deck, and no call changes the id, the
    ownerId or the createdAt of a stored deck: the list of these triples only
    grows at its end, so the deck at a position is, after any call, a deck
    with the same id, owner and creation time. *)
Theorem decks_keep_owner (undef : UndefinedPolicy) (context : ActionAPIContext)
    (now : Date) (req : Request) (s : Db) :
  deck_identity <$> decks s
    `prefix_of` deck_identity <$> decks (serve undef context now req s)
  ∧ ∀ n d,
      decks s !! n = Some d →
      ∃ d', decks (serve undef context now req s) !! n = Some d'
            ∧ VocabDecks.id d' = VocabDecks.id d
            ∧ VocabDecks.ownerId d' = VocabDecks.ownerId d
            ∧ VocabDecks.createdAt d' = VocabDecks.createdAt d.
Proof.
  pose proof (serve_decks_identity undef context now req s) as Hpre.
  split; [exact Hpre|].
  intros n d Hd.
  destruct (prefix_fmap_lookup deck_identity _ _ n d Hpre Hd) as (d' & Hd' & Hsame).
  exists d'. unfold deck_identity in Hsame. injection Hsame as Hid Hown Hat.
  by split_and!.
Qed.

(** X11. In a store with unique card keys, no call removes or reorders a
    card, and no call changes the id or the deckId of a stored card: the card
    at a position is, after any call, a card with the same id in the same
    deck. *)
Theorem cards_keep_deck (undef : UndefinedPolicy) (context : ActionAPIContext)
    (now : Date) (req : Request) (s : Db) :
  keys_ok VocabCards_table s →
  card_identity <$> cards s
    `prefix_of` card_identity <$> cards (serve undef context now req s)
  ∧ ∀ n c,
      cards s !! n = Some c →
      ∃ c', cards (serve undef context now req s) !! n = Some c'
            ∧ VocabCards.id c' = VocabCards.id c
            ∧ VocabCards.deckId c' = VocabCards.deckId c.
Proof.
  intros Hkeys.
  pose proof (serve_cards_identity undef context now req s Hkeys) as Hpre.
  split; [exact Hpre|].
  intros n c Hc.
  destruct (prefix_fmap_lookup card_identity _ _ n c Hpre Hc) as (c' & Hc' & Hsame).
  exists c'. unfold card_identity in Hsame. injection Hsame as Hid Hdk.
  by split_and!.
Qed.

Lemma cards_keep_deck_witness :
  ∃ c', cards (serve skip_undefined ann 200
                 (UpsertCard (card_request (Some 1) 1 "book" "Buecher" None)) demo_db)
          !! 0%nat = Some c'
        ∧ VocabCards.id c' = 1
        ∧ VocabCards.deckId c' = 1.
Proof.
  assert (Hkeys : keys_ok VocabCards_table demo_db)
    by (apply (bool_decide_unpack _); vm_compute; exact I).
  destruct (cards_keep_deck skip_undefined ann 200
              (UpsertCard (card_request (Some 1) 1 "book" "Buecher" None)) demo_db Hkeys)
    as [_ Hat].
  exact (Hat 0%nat book_card eq_refl).
Defined.

(** X12. The review log is append-only: a call leaves the stored reviews as
    they are, unless it is a logReview by a signed-in user that passed its
    checks (the deck is the caller's, the card is a card of that deck, a
    sessionId that is neither null nor 0 is the id of a session of the
    caller); such a call adds exactly one row, at the end, with the caller as
    userId. *)
Theorem reviews_append_only (undef : UndefinedPolicy) (context : ActionAPIContext)
    (now : Date) (req : Request) (s : Db) :
  reviews (serve undef context now req s) = reviews s
  ∨ ∃ i user d c review,
      req = LogReview i
      ∧ identity context = Some user
      ∧ d ∈ decks s ∧ VocabDecks.id d = logReview.raw_deckId i
      ∧ VocabDecks.ownerId d = App.id user
      ∧ c ∈ cards s ∧ VocabCards.id c = logReview.raw_cardId i
      ∧ VocabCards.deckId c = logReview.raw_deckId i
      ∧ (∀ k, logReview.raw_sessionId i = Some k → k ≠ 0 →
           ∃ r, r ∈ sessions s ∧ VocabStudySessions.id r = k
                ∧ VocabStudySessions.userId r = Some (App.id user))
      ∧ VocabReviews.userId review = Some (App.id user)
      ∧ VocabReviews.deckId review = logReview.raw_deckId i
      ∧ VocabReviews.cardId review = logReview.raw_cardId i
      ∧ VocabReviews.sessionId review = logReview.raw_sessionId i
      ∧ reviews (serve undef context now req s) = reviews s ++ [review].
Proof.
  destruct (serve_reviews_shape undef context now req s)
    as [->|(i & user & d & c & Hreq & Hu & Hd & Hid & Hown & Hc & Hcid & Hcdk
            & Hsession & ->)].
  - by left.
  - right.
    exists i, user, d, c,
      (logged_review i user now (autoIncrement (VocabReviews.id <$> reviews s))).
    by split_and!.
Qed.

(** X13. A session keeps its id, deckId, userId, startedAt and createdAt
    through every call, no call removes or reorders a session, and a session
    whose completedAt is set never returns to a null completedAt. *)
Theorem sessions_stay_completed (undef : UndefinedPolicy) (context : ActionAPIContext)
    (now : Date) (req : Request) (s : Db) :
  session_identity <$> sessions s
    `prefix_of` session_identity <$> sessions (serve undef context now req s)
  ∧ ∀ n r,
      sessions s !! n = Some r →
      ∃ r', sessions (serve undef context now req s) !! n = Some r'
            ∧ session_identity r' = session_identity r
            ∧ (is_Some (VocabStudySessions.completedAt r) →
               is_Some (VocabStudySessions.completedAt r')).
Proof.
  split; [apply serve_sessions_identity|].
  intros n r Hr.
  destruct (serve_sessions_shape undef context now req s)
    as [->|[(i & user & d & _ & _ & _ & _ & _ & ->)
           |(i & user & r0 & _ & _ & _ & _ & _ & ->)]].
  - by exists r.
  - exists r. split; [by apply lookup_app_l_Some|done].
  - rewrite list_lookup_fmap, Hr. simpl. eexists. split; [reflexivity|].
    destruct (decide _); [|done].
    split; [apply set_sessions_identity|].
    intros _. rewrite set_sessions_completedAt. by eexists.
Qed.

(** ** What a caller cannot do to the rows of another user *)

(** X14. A call by a signed-in user changes nothing that belongs to somebody
    else: in a store with unique keys, every deck with another ownerId, every
    card of a deck with another ownerId and every study session with another
    userId is, after the call, the same row at the same place. *)
Theorem other_users_rows_untouched (undef : UndefinedPolicy) (context : ActionAPIContext)
    (user : App.User) (now : Date) (req : Request) (s : Db) :
  db_ok s →
  identity context = Some user →
  (∀ n d, decks s !! n = Some d → VocabDecks.ownerId d ≠ App.id user →
     decks (serve undef context now req s) !! n = Some d)
  ∧ (∀ n c d, cards s !! n = Some c → d ∈ decks s →
       VocabDecks.id d = VocabCards.deckId c → VocabDecks.ownerId d ≠ App.id user →
       cards (serve undef context now req s) !! n = Some c)
  ∧ (∀ n r, sessions s !! n = Some r →
       VocabStudySessions.userId r ≠ Some (App.id user) →
       sessions (serve undef context now req s) !! n = Some r).
Proof.
  intros ([Hdecks _] & [Hcards _] & [Hsessions _] & _) Hu. split_and!.
  - intros n d Hd Hother.
    destruct (serve_decks_shape undef context now req s)
      as [->|[(i & u & _ & _ & ->)|(i & u & d0 & _ & Hu' & Hd0 & Hid & Hown & ->)]].
    + done.
    + by apply lookup_app_l_Some.
    + rewrite list_lookup_fmap, Hd. simpl. destruct (decide _) as [Heq|]; [|done].
      exfalso. apply Hother.
      assert (d = d0) as -> by (apply (key_unique VocabDecks.id (decks s));
                                [done|done|by eapply list_elem_of_lookup_2|congruence]).
      congruence.
  - intros n c d Hc Hd Hdc Hother.
    destruct (serve_cards_shape undef context now req s)
      as [->|[(i & u & d0 & _ & _ & _ & _ & _ & ->)
             |(i & u & d0 & k & card & _ & Hu' & Hd0 & Hid & Hown & Hcard & Hk & Hdk & ->)]].
    + done.
    + by apply lookup_app_l_Some.
    + rewrite list_lookup_fmap, Hc. simpl. destruct (decide _) as [Heq|]; [|done].
      exfalso. apply Hother.
      assert (c = card) as -> by (apply (key_unique VocabCards.id (cards s));
                                  [done|done|by eapply list_elem_of_lookup_2|congruence]).
      assert (d = d0) as -> by (apply (key_unique VocabDecks.id (decks s));
                                [done..|congruence]).
      congruence.
  - intros n r Hr Hother.
    destruct (serve_sessions_shape undef context now req s)
      as [->|[(i & u & d0 & _ & _ & _ & _ & _ & ->)
             |(i & u & r0 & _ & Hu' & Hr0 & Hid & Huser & ->)]].
    + done.
    + by apply lookup_app_l_Some.
    + rewrite list_lookup_fmap, Hr. simpl. destruct (decide _) as [Heq|]; [|done].
      exfalso. apply Hother.
      assert (r = r0) as -> by (apply (key_unique VocabStudySessions.id (sessions s));
                                [done|done|by eapply list_elem_of_lookup_2|congruence]).
      congruence.
Qed.

Lemma other_users_rows_untouched_witness :
  decks (serve skip_undefined bob 200 (UpdateDeck (rename 1 "Mine")) demo_db) !! 0%nat
    = Some travel_deck
  ∧ cards (serve skip_undefined bob 200
             (UpsertCard (card_request (Some 1) 2 "x" "y" None)) demo_db) !! 0%nat
    = Some book_card.
Proof.
  assert (Hok : db_ok demo_db) by (apply (bool_decide_unpack _); vm_compute; exact I).
  split.
  - destruct (other_users_rows_untouched skip_undefined bob {| App.id := "bob" |} 200
                (UpdateDeck (rename 1 "Mine")) demo_db Hok eq_refl) as (Hdecks & _).
    apply Hdecks; [reflexivity|discriminate].
  - destruct (other_users_rows_untouched skip_undefined bob {| App.id := "bob" |} 200
                (UpsertCard (card_request (Some 1) 2 "x" "y" None)) demo_db Hok eq_refl)
      as (_ & Hcards & _).
    apply (Hcards 0%nat book_card travel_deck);
      [reflexivity|eapply (list_elem_of_lookup_2 _ 0%nat); reflexivity
      |reflexivity|discriminate].
Defined.

Lemma filter_fmap_key {R} (key : R → Z) (f : R → R) (k : Z) (l : list R) :
  (∀ r, key (f r) = key r) →
  filter (λ r, key r = k) (f <$> l) = f <$> filter (λ r, key r = k) l.
Proof.
  intros Hkey. induction l as [|x l IH]; [done|].
  rewrite fmap_cons, !filter_cons, Hkey, IH. by destruct (decide _).
Qed.

Lemma getDeckForUser_head deckId userId s :
  getDeckForUser deckId userId s
  = match head (filter (λ r, VocabDecks.id r = deckId) (decks s)) with
    | None => (Throw {| code := NOT_FOUND; message := "Deck not found." |}, s)
    | Some deck =>
        if decide (VocabDecks.ownerId deck ≠ userId)
        then (Throw {| code := FORBIDDEN;
                       message := "You do not have access to this deck." |}, s)
        else (Ok deck, s)
    end.
Proof.
  unfold getDeckForUser, bind, db_select; simpl.
  destruct (head _); [|done]. by destruct (decide _).
Qed.

(** X15. Access to a deck is neither gained nor lost through any call: if
    [getDeckForUser] resolves a deck for an identity, it still resolves a
    deck with the same id, ownerId and createdAt for that identity after the
    call, and if it refuses an identity with FORBIDDEN it still does. *)
Theorem deck_access_is_stable (undef : UndefinedPolicy) (context : ActionAPIContext)
    (now : Date) (req : Request) (s : Db) (deckId : Z) (userId : string) :
  (∀ d, getDeckForUser deckId userId s = (Ok d, s) →
     ∃ d', getDeckForUser deckId userId (serve undef context now req s)
             = (Ok d', serve undef context now req s)
           ∧ deck_identity d' = deck_identity d)
  ∧ (rejects (getDeckForUser deckId userId) FORBIDDEN s →
     rejects (getDeckForUser deckId userId) FORBIDDEN (serve undef context now req s)).
Proof.
  assert (Hhead : ∀ d,
    head (filter (λ r, VocabDecks.id r = deckId) (decks s)) = Some d →
    ∃ d', head (filter (λ r, VocabDecks.id r = deckId)
                  (decks (serve undef context now req s))) = Some d'
          ∧ deck_identity d' = deck_identity d).
  { intros d Hd.
    destruct (serve_decks_shape undef context now req s)
      as [->|[(i & u & _ & _ & ->)|(i & u & d0 & _ & _ & _ & _ & _ & ->)]].
    - by exists d.
    - exists d. split; [|done]. rewrite filter_app.
      apply head_Some in Hd as [l' ->]. done.
    - rewrite (filter_fmap_key VocabDecks.id)
        by (intros r; destruct (decide _); [apply set_decks_id|done]).
      apply head_Some in Hd as [l' ->]. simpl. eexists. split; [done|].
      destruct (decide _); [apply set_decks_identity|done]. }
  split.
  - intros d Hrun. rewrite getDeckForUser_head in Hrun.
    destruct (head (filter _ (decks s))) as [d0|] eqn:Hd0; [|done].
    destruct (decide (VocabDecks.ownerId d0 ≠ userId)) as [|Hown]; [done|].
    injection Hrun as ->.
    destruct (Hhead d eq_refl) as (d' & Hd' & Hsame).
    exists d'. split; [|done]. rewrite getDeckForUser_head, Hd'.
    injection Hsame as _ Hsame _.
    rewrite decide_False; [done|]. by rewrite Hsame.
  - intros [m Hrun]. rewrite getDeckForUser_head in Hrun.
    destruct (head (filter _ (decks s))) as [d0|] eqn:Hd0; [|done].
    destruct (decide (VocabDecks.ownerId d0 ≠ userId)) as [Hown|]; [|done].
    destruct (Hhead d0 eq_refl) as (d' & Hd' & Hsame).
    unfold rejects. rewrite getDeckForUser_head, Hd'.
    injection Hsame as _ Hsame _.
    rewrite decide_True; [by eexists|]. by rewrite Hsame.
Qed.

Lemma deck_access_is_stable_witness :
  rejects (getDeckForUser 1 "bob") FORBIDDEN
    (serve skip_undefined ann 200 (UpdateDeck (rename 1 "Trips")) demo_db).
Proof.
  apply (deck_access_is_stable skip_undefined ann 200 (UpdateDeck (rename 1 "Trips"))
           demo_db 1 "bob").
  by eexists.
Defined.

(** ** References between the tables *)

Lemma prefix_fmap_kept {R B} (g : R → B) (l l' : list R) (x : R) :
  g <$> l `prefix_of` g <$> l' → x ∈ l → ∃ x', x' ∈ l' ∧ g x' = g x.
Proof.
  intros [k Hk] Hx.
  assert (Hin : g x ∈ g <$> l') by (rewrite Hk; apply elem_of_app; left;
                                     by apply list_elem_of_fmap_2).
  apply list_elem_of_fmap in Hin as (x' & Heq & Hx'). by exists x'.
Qed.

Lemma deck_kept undef context now req s d :
  d ∈ decks s →
  ∃ d', d' ∈ decks (serve undef context now req s)
        ∧ VocabDecks.id d' = VocabDecks.id d
        ∧ VocabDecks.ownerId d' = VocabDecks.ownerId d.
Proof.
  intros Hd.
  destruct (prefix_fmap_kept deck_identity _ _ d
              (serve_decks_identity undef context now req s) Hd) as (d' & Hd' & Hsame).
  injection Hsame as ? ? ?. by exists d'.
Qed.

Lemma card_kept undef context now req s c :
  keys_ok VocabCards_table s → c ∈ cards s →
  ∃ c', c' ∈ cards (serve undef context now req s)
        ∧ VocabCards.id c' = VocabCards.id c
        ∧ VocabCards.deckId c' = VocabCards.deckId c.
Proof.
  intros Hkeys Hc.
  destruct (prefix_fmap_kept card_identity _ _ c
              (serve_cards_identity undef context now req s Hkeys) Hc)
    as (c' & Hc' & Hsame).
  injection Hsame as ? ?. by exists c'.
Qed.

Lemma session_kept undef context now req s r :
  r ∈ sessions s →
  ∃ r', r' ∈ sessions (serve undef context now req s)
        ∧ VocabStudySessions.id r' = VocabStudySessions.id r
        ∧ VocabStudySessions.userId r' = VocabStudySessions.userId r.
Proof.
  intros Hr.
  destruct (prefix_fmap_kept session_identity _ _ r
              (serve_sessions_identity undef context now req s) Hr)
    as (r' & Hr' & Hsame).
  injection Hsame as ? ? ? ? ?. by exists r'.
Qed.

Lemma card_origin undef context now req s c' :
  keys_ok VocabCards_table s →
  c' ∈ cards (serve undef context now req s) →
  (∃ c, c ∈ cards s ∧ VocabCards.deckId c' = VocabCards.deckId c)
  ∨ (∃ d, d ∈ decks s ∧ VocabDecks.id d = VocabCards.deckId c').
Proof.
  intros [Hnd _] Hc'.
  destruct (serve_cards_shape undef context now req s)
    as [Heq|[(i & user & d & _ & _ & Hd & Hid & _ & Heq)
            |(i & user & d & k & card & _ & _ & _ & _ & _ & Hc & Hk & Hdk & Heq)]];
    rewrite Heq in Hc'.
  - left. by exists c'.
  - apply elem_of_app in Hc' as [Hc'|Hc'].
    + left. by exists c'.
    + apply list_elem_of_singleton in Hc' as ->. right. by exists d.
  - apply list_elem_of_fmap in Hc' as (c & -> & Hcin). left. exists c.
    split; [done|]. destruct (decide _) as [Hck|]; [|done].
    assert (c = card) as -> by (apply (key_unique VocabCards.id (cards s));
                                [done..|congruence]).
    rewrite set_cards_changes. simpl. by rewrite Hdk.
Qed.

Lemma session_origin undef context now req s r' :
  r' ∈ sessions (serve undef context now req s) →
  (∃ r, r ∈ sessions s
        ∧ VocabStudySessions.deckId r' = VocabStudySessions.deckId r
        ∧ VocabStudySessions.userId r' = VocabStudySessions.userId r)
  ∨ (∃ d, d ∈ decks s ∧ VocabDecks.id d = VocabStudySessions.deckId r'
          ∧ VocabStudySessions.userId r' = Some (VocabDecks.ownerId d)).
Proof.
  intros Hr'.
  destruct (serve_sessions_shape undef context now req s)
    as [Heq|[(i & user & d & _ & _ & Hd & Hid & Hown & Heq)
            |(i & user & r0 & _ & _ & _ & _ & _ & Heq)]];
    rewrite Heq in Hr'.
  - left. by exists r'.
  - apply elem_of_app in Hr' as [Hr'|Hr'].
    + left. by exists r'.
    + apply list_elem_of_singleton in Hr' as ->. right. exists d.
      split_and!; [done|done|simpl; by rewrite Hown].
  - apply list_elem_of_fmap in Hr' as (r & -> & Hrin). left. exists r.
    split; [done|]. destruct (decide _); [|done].
    split; reflexivity.
Qed.

Lemma serve_refs_ok undef context now req s :
  db_ok s → refs_ok s → refs_ok (serve undef context now req s).
Proof.
  intros (_ & Hcards & _ & _) (Hc & Hs & Hv).
  assert (Hdeck' : ∀ d, d ∈ decks s →
            ∃ d', d' ∈ decks (serve undef context now req s)
                  ∧ VocabDecks.id d' = VocabDecks.id d
                  ∧ VocabDecks.ownerId d' = VocabDecks.ownerId d)
    by (intros d; apply deck_kept).
  split_and!.
  - intros c' Hc'.
    destruct (card_origin undef context now req s c' Hcards Hc')
      as [(c & Hcin & Hsame)|(d & Hd & Hid)].
    + destruct (Hc c Hcin) as (d & Hd & Hid).
      destruct (Hdeck' d Hd) as (d' & Hd' & Hid' & _).
      exists d'. split; [done|]. congruence.
    + destruct (Hdeck' d Hd) as (d' & Hd' & Hid' & _).
      exists d'. split; [done|]. congruence.
  - intros r' Hr'.
    destruct (session_origin undef context now req s r' Hr')
      as [(r & Hrin & Hdk & Hu)|(d & Hd & Hid & Hu)].
    + destruct (Hs r Hrin) as (d & Hd & Hid & Hown).
      destruct (Hdeck' d Hd) as (d' & Hd' & Hid' & Hown').
      exists d'. split_and!; [done|congruence|congruence].
    + destruct (Hdeck' d Hd) as (d' & Hd' & Hid' & Hown').
      exists d'. split_and!; [done|congruence|congruence].
  - intros v Hv'.
    assert (Hfacts :
      (∃ d, d ∈ decks s ∧ VocabDecks.id d = VocabReviews.deckId v
            ∧ VocabReviews.userId v = Some (VocabDecks.ownerId d))
      ∧ (∃ c, c ∈ cards s ∧ VocabCards.id c = VocabReviews.cardId v
              ∧ VocabCards.deckId c = VocabReviews.deckId v)
      ∧ (∀ k, VocabReviews.sessionId v = Some k → k ≠ 0 →
           ∃ r, r ∈ sessions s ∧ VocabStudySessions.id r = k
                ∧ VocabStudySessions.userId r = VocabReviews.userId v)).
    { destruct (serve_reviews_shape undef context now req s)
        as [Heq|(i & user & d & c & _ & _ & Hd & Hid & Hown & Hcin & Hcid & Hcdk
                 & Hsession & Heq)]; rewrite Heq in Hv'.
      - by apply Hv.
      - apply elem_of_app in Hv' as [Hv'|Hv']; [by apply Hv|].
        apply list_elem_of_singleton in Hv' as ->. split_and!.
        + exists d. split_and!; [done|done|simpl; by rewrite Hown].
        + by exists c.
        + exact Hsession. }
    destruct Hfacts as ((d & Hd & Hid & Hown) & (c & Hcin & Hcid & Hcdk) & Hsession).
    split_and!.
    + destruct (Hdeck' d Hd) as (d' & Hd' & Hid' & Hown').
      exists d'. split_and!; [done|congruence|congruence].
    + destruct (card_kept undef context now req s c Hcards Hcin) as (c' & Hc' & ? & ?).
      exists c'. split_and!; [done|congruence|congruence].
    + intros k Hk Hnz. destruct (Hsession k Hk Hnz) as (r & Hr & Hrid & Hru).
      destruct (session_kept undef context now req s r Hr) as (r' & Hr' & ? & ?).
      exists r'. split_and!; [done|congruence|congruence].
Qed.

(** X16. In every store the API reaches from the empty one, the references
    lead somewhere although the store does not enforce them: each card
    belongs to a stored deck; each study session belongs to a stored deck
    whose owner is the session's user; each review belongs to a stored deck
    whose owner is the review's user and to a stored card of that deck, and a
    review's sessionId, when neither null nor 0, is the id of a stored session
    of the review's user. *)
Theorem reachable_refs_ok (undef : UndefinedPolicy) (s : Db) :
  reachable undef s → refs_ok s.
Proof.
  intros Hs. cut (db_ok s ∧ refs_ok s); [tauto|].
  induction Hs as [|context now req s _ [Hok IH]].
  - split; [repeat split; constructor|].
    split_and!; intros x Hx; by apply elem_of_nil in Hx.
  - split; [by apply serve_db_ok|by apply serve_refs_ok].
Qed.

Lemma reachable_refs_ok_witness :
  reachable skip_undefined demo_db ∧ refs_ok demo_db.
Proof.
  split; [exact demo_db_reachable|].
  exact (reachable_refs_ok skip_undefined demo_db demo_db_reachable).
Defined.

(** X17. Primary keys stay unique and positive: a call keeps this in each of
    the four tables, so it holds in every store the API reaches from the
    empty one; in particular the key 0 is never assigned. *)
Theorem primary_keys_stay_unique (undef : UndefinedPolicy) :
  (∀ context now req s, db_ok s → db_ok (serve undef context now req s))
  ∧ (∀ s, reachable undef s → db_ok s).
Proof.
  split.
  - intros context now req s. apply serve_db_ok.
  - intros s Hs. induction Hs as [|context now req s _ IH].
    + repeat split; constructor.
    + by apply serve_db_ok.
Qed.

Lemma primary_keys_stay_unique_witness :
  db_ok demo_db
  ∧ db_ok (serve skip_undefined ann 200 (CreateDeck (new_deck "Food")) demo_db).
Proof.
  assert (Hok : db_ok demo_db) by (apply (bool_decide_unpack _); vm_compute; exact I).
  split; [exact Hok|].
  exact (proj1 (primary_keys_stay_unique skip_undefined) ann 200
           (CreateDeck (new_deck "Food")) demo_db Hok).
Defined.

(** ** Study sessions and reviews *)

Lemma startStudySession_runs i context user now s d :
  identity context = Some user →
  getDeckForUser (startStudySession.deckId i) (App.id user) s = (Ok d, s) →
  startStudySession.action i context now s =
    (Ok {| success := true;
           data := Some (started_session (startStudySession.deckId i) user now
                           (autoIncrement (VocabStudySessions.id <$> sessions s))) |},
     {| decks := decks s; cards := cards s;
        sessions := sessions s
                    ++ [started_session (startStudySession.deckId i) user now
                          (autoIncrement (VocabStudySessions.id <$> sessions s))];
        reviews := reviews s |}).
Proof.
  intros Hu Hdeck.
  unfold startStudySession.action, defineAction, startStudySession.schema,
    startStudySession.handler.
  rewrite (bind_ok _ _ _ _ _ (requireUser_signed _ _ _ Hu)).
  by rewrite (bind_ok _ _ _ _ _ Hdeck).
Qed.

(** X18. startStudySession by a signed-in owner of the deck appends one
    session under a fresh key, for that deck and user, started and created
    now, not completed, with the three counters at 0 and no summary.  In the
    store it leaves, completeStudySession with the new id succeeds for the
    same caller and fails with NOT_FOUND for any other signed-in user. *)
Theorem startStudySession_then_complete (undef : UndefinedPolicy)
    (i : startStudySession.input) (j : completeStudySession.input)
    (context : ActionAPIContext) (user : App.User) (now later : Date) (s : Db)
    (d : VocabDecks.row) :
  keys_ok VocabStudySessions_table s →
  identity context = Some user →
  getDeckForUser (startStudySession.deckId i) (App.id user) s = (Ok d, s) →
  ∃ session s',
    startStudySession.action i context now s
      = (Ok {| success := true; data := Some session |}, s')
    ∧ sessions s' = sessions s ++ [session]
    ∧ decks s' = decks s ∧ cards s' = cards s ∧ reviews s' = reviews s
    ∧ (∀ r, r ∈ sessions s → VocabStudySessions.id r < VocabStudySessions.id session)
    ∧ session = {| VocabStudySessions.id := VocabStudySessions.id session;
                   VocabStudySessions.deckId := startStudySession.deckId i;
                   VocabStudySessions.userId := Some (App.id user);
                   VocabStudySessions.startedAt := now;
                   VocabStudySessions.completedAt := None;
                   VocabStudySessions.totalCardsSeen := 0;
                   VocabStudySessions.correctCount := 0;
                   VocabStudySessions.wrongCount := 0;
                   VocabStudySessions.summary := None;
                   VocabStudySessions.createdAt := now |}
    ∧ (completeStudySession.id j = VocabStudySessions.id session →
         (completeStudySession.action undef j context later s').1
         = Ok {| success := true; data := Some (completed_session j later session) |})
    ∧ (∀ other_context other,
         completeStudySession.id j = VocabStudySessions.id session →
         identity other_context = Some other → App.id other ≠ App.id user →
         rejects (completeStudySession.action undef j other_context later) NOT_FOUND s').
Proof.
  intros Hkeys Hu Hdeck.
  set (session := started_session (startStudySession.deckId i) user now
                    (autoIncrement (VocabStudySessions.id <$> sessions s))).
  set (s' := {| decks := decks s; cards := cards s;
                sessions := sessions s ++ [session]; reviews := reviews s |}).
  assert (Hkeys' : keys_ok VocabStudySessions_table s')
    by (unfold keys_ok; simpl; by apply keys_list_ok_insert).
  assert (Hin : session ∈ sessions s') by (simpl; apply elem_of_app; right; left).
  exists session, s'.
  split; [by apply (startStudySession_runs i context user now s d)|].
  split_and!; try done.
  - intros r Hr.
    destruct (autoIncrement_fresh (VocabStudySessions.id <$> sessions s)) as [Hlt _].
    rewrite Forall_fmap, Forall_forall in Hlt. by apply Hlt.
  - intros Hj.
    by rewrite (completeStudySession_found undef j context user later s' session).
  - intros other_context other Hj Hother Hne.
    apply (completeStudySession_missing undef j other_context other later s' Hother).
    intros r Hr [Hid Huser]. destruct Hkeys' as [Hnd _].
    assert (r = session) as -> by (apply (key_unique VocabStudySessions.id (sessions s'));
                                   [done..|congruence]).
    simpl in Huser. congruence.
Qed.

Lemma startStudySession_then_complete_witness :
  ∃ session s',
    startStudySession.action (study 1) ann 200 demo_db
      = (Ok {| success := true; data := Some session |}, s')
    ∧ VocabStudySessions.id session = 3
    ∧ (completeStudySession.action skip_undefined (finish 3 (Some 4) None) ann 300 s').1
      = Ok {| success := true;
              data := Some (completed_session (finish 3 (Some 4) None) 300 session) |}
    ∧ rejects (completeStudySession.action skip_undefined (finish 3 (Some 4) None) bob 300)
        NOT_FOUND s'.
Proof.
  assert (Hkeys : keys_ok VocabStudySessions_table demo_db)
    by (apply (bool_decide_unpack _); vm_compute; exact I).
  destruct (startStudySession_then_complete skip_undefined (study 1)
              (finish 3 (Some 4) None) ann {| App.id := "ann" |} 200 300 demo_db
              travel_deck Hkeys eq_refl eq_refl)
    as (session & s' & Hrun & _ & _ & _ & _ & _ & _ & Hmine & Hother).
  exists session, s'. split; [exact Hrun|].
  assert (Hid : VocabStudySessions.id session = 3)
    by (injection Hrun as <- _; reflexivity).
  split; [exact Hid|]. split.
  - apply Hmine. by rewrite Hid.
  - apply (Hother bob {| App.id := "bob" |}); [by rewrite Hid|reflexivity|discriminate].
Defined.

(** X19. For a signed-in owner of the deck, logReview fails with NOT_FOUND
    and writes nothing when no card has the given cardId together with the
    given deckId; when the card is there and a non-zero sessionId is given,
    it fails with FORBIDDEN and writes nothing unless a session has that id
    together with the caller's userId. *)
Theorem logReview_checks (i : logReview.raw) (context : ActionAPIContext)
    (user : App.User) (now : Date) (s : Db) (d : VocabDecks.row) :
  identity context = Some user →
  getDeckForUser (logReview.raw_deckId i) (App.id user) s = (Ok d, s) →
  ((∀ c, c ∈ cards s →
      ¬ (VocabCards.id c = logReview.raw_cardId i
         ∧ VocabCards.deckId c = logReview.raw_deckId i)) →
     rejects (logReview.action i context now) NOT_FOUND s)
  ∧ (∀ c k,
       c ∈ cards s → VocabCards.id c = logReview.raw_cardId i →
       VocabCards.deckId c = logReview.raw_deckId i →
       logReview.raw_sessionId i = Some k → k ≠ 0 →
       (∀ r, r ∈ sessions s →
          ¬ (VocabStudySessions.id r = k
             ∧ VocabStudySessions.userId r = Some (App.id user))) →
       rejects (logReview.action i context now) FORBIDDEN s).
Proof.
  intros Hu Hdeck. split.
  - intros Hno. by eapply logReview_card_missing.
  - intros c k Hc Hcid Hcdk Hsid Hk Hno. by eapply logReview_session_foreign.
Qed.

Lemma logReview_checks_witness :
  rejects (logReview.action (review_request 1 2 None) ann 300) NOT_FOUND demo_db
  ∧ rejects (logReview.action (review_request 1 1 (Some 2)) ann 300) FORBIDDEN demo_db.
Proof.
  split.
  - destruct (logReview_checks (review_request 1 2 None) ann {| App.id := "ann" |} 300
                demo_db travel_deck eq_refl eq_refl) as [Hcard _].
    apply Hcard. intros c Hc. apply (bool_decide_unpack _).
    revert c Hc. apply Forall_forall. vm_compute. repeat constructor.
  - destruct (logReview_checks (review_request 1 1 (Some 2)) ann {| App.id := "ann" |}
                300 demo_db travel_deck eq_refl eq_refl) as [_ Hsession].
    apply (Hsession book_card 2);
      [eapply (list_elem_of_lookup_2 _ 0%nat); reflexivity
      |reflexivity|reflexivity|reflexivity|discriminate|].
    intros r Hr. apply (bool_decide_unpack _).
    revert r Hr. apply Forall_forall. vm_compute. repeat constructor.
Defined.

(** X20. For a signed-in owner of the deck and a card of that deck, logReview
    without a sessionId, or with the id of a session of the caller (of
    whatever deck), appends one review under a fresh key and returns it:
    userId is the caller, rating defaults to good, reviewedAt to the current
    time, intervalDays to 0, and sessionId, dueAt and easeFactor are stored
    as given; nothing else in the store changes. *)
Theorem logReview_appends (i : logReview.raw) (context : ActionAPIContext)
    (user : App.User) (now : Date) (s : Db) (d : VocabDecks.row) (c : VocabCards.row) :
  identity context = Some user →
  getDeckForUser (logReview.raw_deckId i) (App.id user) s = (Ok d, s) →
  c ∈ cards s → VocabCards.id c = logReview.raw_cardId i →
  VocabCards.deckId c = logReview.raw_deckId i →
  match logReview.raw_sessionId i with
  | None => True
  | Some k => ∃ r, r ∈ sessions s ∧ VocabStudySessions.id r = k
                  ∧ VocabStudySessions.userId r = Some (App.id user)
  end →
  ∃ review,
    logReview.action i context now s =
      (Ok {| success := true; data := Some review |},
       {| decks := decks s; cards := cards s; sessions := sessions s;
          reviews := reviews s ++ [review] |})
    ∧ (∀ v, v ∈ reviews s → VocabReviews.id v < VocabReviews.id review)
    ∧ VocabReviews.deckId review = logReview.raw_deckId i
    ∧ VocabReviews.cardId review = logReview.raw_cardId i
    ∧ VocabReviews.userId review = Some (App.id user)
    ∧ VocabReviews.sessionId review = logReview.raw_sessionId i
    ∧ VocabReviews.rating review = default good (logReview.raw_rating i)
    ∧ VocabReviews.reviewedAt review = default now (logReview.raw_reviewedAt i)
    ∧ VocabReviews.dueAt review = logReview.raw_dueAt i
    ∧ VocabReviews.intervalDays review = default 0 (logReview.raw_intervalDays i)
    ∧ VocabReviews.easeFactor review = logReview.raw_easeFactor i.
Proof.
  intros Hu Hdeck Hc Hcid Hcdk Hsession.
  eexists. split; [by eapply logReview_inserts|].
  split; [|by split_and!].
  intros v Hv.
  destruct (autoIncrement_fresh (VocabReviews.id <$> reviews s)) as [Hlt _].
  rewrite Forall_fmap, Forall_forall in Hlt. by apply Hlt.
Qed.

Lemma logReview_appends_witness :
  ∃ review,
    (logReview.action (review_request 1 1 (Some 1)) ann 300 demo_db).1
      = Ok {| success := true; data := Some review |}
    ∧ VocabReviews.rating review = good
    ∧ VocabReviews.reviewedAt review = 300
    ∧ VocabReviews.sessionId review = Some 1.
Proof.
  destruct (logReview_appends (review_request 1 1 (Some 1)) ann {| App.id := "ann" |}
              300 demo_db travel_deck book_card eq_refl eq_refl)
    as (review & Hrun & _ & _ & _ & _ & Hsid & Hrating & Hat & _).
  - eapply (list_elem_of_lookup_2 _ 0%nat); reflexivity.
  - reflexivity.
  - reflexivity.
  - exists ann_session. split; [|split; reflexivity].
    eapply (list_elem_of_lookup_2 _ 0%nat); reflexivity.
  - exists review. rewrite Hrun. by split_and!.
Defined.

(** ** What the input constraints guarantee in the store *)

Lemma min1_nonempty t : min1 t = true → t ≠ "".
Proof.
  unfold min1. intros Ht ->. by rewrite String.eqb_refl in Ht.
Qed.

Lemma set_cards_changes_texts undef i card r :
  VocabCards.term (set_cards undef (upsertCard.changes i card) r) = upsertCard.term i
  ∧ VocabCards.translation (set_cards undef (upsertCard.changes i card) r)
    = upsertCard.translation i.
Proof. by destruct r. Qed.

Lemma serve_texts_ok undef context now req s :
  texts_ok s → texts_ok (serve undef context now req s).
Proof.
  intros [Hdecks Hcards].
  destruct req; unfold serve; unfold_actions; run_handler; try done; split; try done;
    simpl.
  - intros x Hx. apply elem_of_app in Hx as [Hx|Hx]; [by apply Hdecks|].
    apply list_elem_of_singleton in Hx as ->. simpl. by apply min1_nonempty.
  - intros x Hx. apply list_elem_of_fmap in Hx as (x0 & -> & Hx0).
    destruct (decide (VocabDecks.id x0 = _)); [|by apply Hdecks].
    rewrite set_decks_changes. simpl.
    destruct (updateDeck.title _) as [t|]; simpl in *;
      [by apply min1_nonempty|by apply Hdecks].
  - intros x Hx. apply list_elem_of_fmap in Hx as (x0 & -> & Hx0).
    destruct (decide (VocabCards.id x0 = _)); [|by apply Hcards].
    rewrite (proj1 (set_cards_changes_texts _ _ _ _)),
      (proj2 (set_cards_changes_texts _ _ _ _)).
    split; by apply min1_nonempty.
  - intros x Hx. apply elem_of_app in Hx as [Hx|Hx]; [by apply Hcards|].
    apply list_elem_of_singleton in Hx as ->. simpl.
    split; by apply min1_nonempty.
Qed.

(** X21. The input constraints keep empty texts out of the store: in every
    store the API reaches from the empty one, each deck has a non-empty title
    and each card a non-empty term and a non-empty translation. *)
Theorem reachable_texts_ok (undef : UndefinedPolicy) (s : Db) :
  reachable undef s → texts_ok s.
Proof.
  induction 1 as [|context now req s _ IH].
  - split; intros x Hx; by apply elem_of_nil in Hx.
  - by apply serve_texts_ok.
Qed.

Lemma reachable_texts_ok_witness :
  reachable skip_undefined demo_db ∧ texts_ok demo_db.
Proof.
  split; [exact demo_db_reachable|].
  exact (reachable_texts_ok skip_undefined demo_db demo_db_reachable).
Defined.

(** ** updateDeck served twice *)

Lemma updated_deck_twice i now later d :
  updated_deck i later (updated_deck i now d) = updated_deck i later d.
Proof.
  unfold updated_deck; simpl.
  by destruct (updateDeck.title i), (updateDeck.description i),
    (updateDeck.fromLanguage i), (updateDeck.toLanguage i), (updateDeck.level i),
    (updateDeck.tags i), (updateDeck.isActive i).
Qed.

Lemma updateDeck_runs undef i context user now s d :
  keys_ok VocabDecks_table s →
  identity context = Some user →
  updateDeck.schema i = Ok i →
  d ∈ decks s → VocabDecks.id d = updateDeck.id i →
  VocabDecks.ownerId d = App.id user →
  updateDeck.action undef i context now s =
    (Ok {| success := true; data := Some (updated_deck i now d) |},
     {| decks :=
          (λ r, if decide (VocabDecks.id r = updateDeck.id i)
                then updated_deck i now d else r) <$> decks s;
        cards := cards s; sessions := sessions s; reviews := reviews s |}).
Proof.
  intros Hkeys Hu Hschema Hd Hid Hown.
  assert (Hdeck : getDeckForUser (updateDeck.id i) (App.id user) s = (Ok d, s)).
  { rewrite (getDeckForUser_found _ _ _ d) by done.
    rewrite decide_False; [done|]. by intros ?. }
  destruct Hkeys as [Hnd _].
  unfold updateDeck.action, defineAction. rewrite Hschema.
  unfold updateDeck.handler.
  rewrite (bind_ok _ _ _ _ _ (requireUser_signed _ _ _ Hu)).
  rewrite (bind_ok _ _ _ _ _ Hdeck).
  unfold bind, db_update, ret; simpl in *. rewrite <- Hid.
  rewrite (filter_key_unique VocabDecks.id) by done.
  rewrite (update_unique VocabDecks.id) by done.
  simpl. by rewrite set_decks_changes.
Qed.

(** X22. updateDeck is idempotent up to updatedAt: for a signed-in owner and
    a request that passes the input constraints, serving the request a
    second time at a later moment gives the response and the store of
    serving it once at that later moment. *)
Theorem updateDeck_twice (undef : UndefinedPolicy) (i : updateDeck.input)
    (context : ActionAPIContext) (user : App.User) (now later : Date) (s : Db)
    (d : VocabDecks.row) :
  keys_ok VocabDecks_table s →
  identity context = Some user →
  updateDeck.schema i = Ok i →
  getDeckForUser (updateDeck.id i) (App.id user) s = (Ok d, s) →
  updateDeck.action undef i context later (updateDeck.action undef i context now s).2
  = updateDeck.action undef i context later s.
Proof.
  intros Hkeys Hu Hschema Hdeck.
  destruct (getDeckForUser_inv _ _ _ _ _ Hdeck) as [_ Hd].
  destruct (Hd d eq_refl) as (Hin & Hid & Hown).
  rewrite (updateDeck_runs undef i context user now s d) by done.
  rewrite (updateDeck_runs undef i context user later s d) by done. simpl.
  set (s' := {| decks := (λ r, if decide (VocabDecks.id r = updateDeck.id i)
                               then updated_deck i now d else r) <$> decks s;
                cards := cards s; sessions := sessions s; reviews := reviews s |}).
  assert (Hkeys' : keys_ok VocabDecks_table s').
  { unfold keys_ok; simpl. rewrite <- list_fmap_compose.
    erewrite list_fmap_ext; [exact Hkeys|].
    intros n r _. simpl. destruct (decide _); [simpl; congruence|done]. }
  assert (Hin' : updated_deck i now d ∈ decks s').
  { simpl. apply list_elem_of_fmap. exists d. split; [|done]. by rewrite decide_True. }
  rewrite (updateDeck_runs undef i context user later s' (updated_deck i now d))
    by done.
  rewrite updated_deck_twice. f_equal. unfold s'; simpl. f_equal.
  rewrite <- list_fmap_compose. apply list_fmap_ext.
  intros n r _. simpl. destruct (decide (VocabDecks.id r = updateDeck.id i)) as [|Hne].
  - by rewrite decide_True.
  - by rewrite decide_False.
Qed.

Lemma updateDeck_twice_witness :
  updateDeck.action skip_undefined (rename 1 "Trips") ann 180
    (updateDeck.action skip_undefined (rename 1 "Trips") ann 170 demo_db).2
  = updateDeck.action skip_undefined (rename 1 "Trips") ann 180 demo_db.
Proof.
  assert (Hkeys : keys_ok VocabDecks_table demo_db)
    by (apply (bool_decide_unpack _); vm_compute; exact I).
  exact (updateDeck_twice skip_undefined (rename 1 "Trips") ann {| App.id := "ann" |}
           170 180 demo_db travel_deck Hkeys eq_refl eq_refl eq_refl).
Defined.

(** ** Decks in the listing *)

Lemma listDecks_runs i context user now s :
  identity context = Some user →
  listDecks.action i context now s =
    (Ok {| success := true;
           data :=
             {| items :=
                  if default false (i ≫= listDecks.raw_includeInactive)
                  then filter (λ d, VocabDecks.ownerId d = App.id user) (decks s)
                  else filter (λ d, VocabDecks.ownerId d = App.id user
                                    ∧ VocabDecks.isActive d = true) (decks s);
                total :=
                  length
                    (if default false (i ≫= listDecks.raw_includeInactive)
                     then filter (λ d, VocabDecks.ownerId d = App.id user) (decks s)
                     else filter (λ d, VocabDecks.ownerId d = App.id user
                                       ∧ VocabDecks.isActive d = true) (decks s)) |} |},
     s).
Proof.
  intros Hu.
  unfold listDecks.action, defineAction, listDecks.schema, listDecks.handler.
  rewrite (bind_ok _ _ _ _ _ (requireUser_signed _ _ _ Hu)).
  by destruct i as [[[[]|]]|].
Qed.

(** X23. A deck created by a signed-in caller is in that caller's next
    listDecks, together with the decks listed before and one item more, in
    no promised order, unless it was created inactive and inactive decks are
    not asked for; the listing of a user with another id holds the same
    decks before and after. *)
Theorem createDeck_then_list (i : createDeck.input) (q : option listDecks.raw)
    (context other_context : ActionAPIContext) (user other : App.User)
    (now later : Date) (s : Db) :
  identity context = Some user →
  createDeck.title i ≠ "" →
  identity other_context = Some other → App.id other ≠ App.id user →
  ∃ deck s' before after theirs theirs_after,
    createDeck.action i context now s = (Ok {| success := true; data := Some deck |}, s')
    ∧ (listDecks.action q context later s).1
      = Ok {| success := true; data := before |}
    ∧ (listDecks.action q context later s').1
      = Ok {| success := true; data := after |}
    ∧ (if default false (q ≫= listDecks.raw_includeInactive)
          || default true (createDeck.isActive i)
       then items after ≡ₚ deck :: items before ∧ total after = S (total before)
       else items after ≡ₚ items before ∧ total after = total before)
    ∧ (listDecks.action q other_context later s).1
      = Ok {| success := true; data := theirs |}
    ∧ (listDecks.action q other_context later s').1
      = Ok {| success := true; data := theirs_after |}
    ∧ items theirs_after ≡ₚ items theirs
    ∧ total theirs_after = total theirs
    ∧ deck ∉ items theirs_after.
Proof.
  intros Hu Ht Ho Hne.
  eexists _, _, _, _, _, _. split; [by apply createDeck_runs|].
  rewrite !(listDecks_runs q context user) by done.
  rewrite !(listDecks_runs q other_context other) by done. simpl.
  split; [reflexivity|]. split; [reflexivity|].
  split; [|split; [reflexivity|split; [reflexivity|]]]; simpl.
  - destruct (default false (q ≫= listDecks.raw_includeInactive)); simpl.
    + rewrite filter_app, filter_cons_True, filter_nil by done.
      split; [apply snoc_perm|by rewrite length_app, Nat.add_1_r].
    + rewrite filter_app, filter_cons, filter_nil.
      destruct (default true (createDeck.isActive i)) eqn:Hactive.
      * rewrite decide_True by done.
        split; [apply snoc_perm|by rewrite length_app, Nat.add_1_r].
      * rewrite decide_False by (simpl; rewrite Hactive; by intros [_ ?]).
        by rewrite app_nil_r.
  - destruct (default false (q ≫= listDecks.raw_includeInactive)); simpl;
      rewrite filter_app, filter_cons_False, filter_nil, app_nil_r
        by (simpl; intros ?; intuition congruence);
      (split_and!; [done|done|]);
      intros Hin; apply list_elem_of_filter in Hin; simpl in Hin;
      intuition congruence.
Qed.

Lemma createDeck_then_list_witness :
  ∃ deck s' after theirs_after,
    createDeck.action (new_deck "Food") ann 200 demo_db
      = (Ok {| success := true; data := Some deck |}, s')
    ∧ (listDecks.action None ann 210 s').1 = Ok {| success := true; data := after |}
    ∧ items after ≡ₚ [deck; travel_deck]
    ∧ total after = 2%nat
    ∧ (listDecks.action None bob 210 s').1
      = Ok {| success := true; data := theirs_after |}
    ∧ total theirs_after = 1%nat.
Proof.
  assert (Htitle : createDeck.title (new_deck "Food") ≠ "") by discriminate.
  assert (Hne : App.id {| App.id := "bob" |} ≠ App.id {| App.id := "ann" |})
    by discriminate.
  destruct (createDeck_then_list (new_deck "Food") None ann bob {| App.id := "ann" |}
              {| App.id := "bob" |} 200 210 demo_db eq_refl Htitle eq_refl Hne)
    as (deck & s' & before & after & theirs & theirs_after & Hrun & Hbefore & Hafter
        & [Hitems Htotal] & Htheirs & Htheirs' & _ & Hsame & _).
  exists deck, s', after, theirs_after. split; [exact Hrun|].
  injection Hbefore as <-. injection Htheirs as <-.
  split_and!; [exact Hafter|exact Hitems|exact Htotal|exact Htheirs'|exact Hsame].
Defined.

(** X24. Switching a deck off only hides it from the default listing: after
    an updateDeck with isActive = false by its owner, listDecks without
    includeInactive no longer returns a deck with that id, listDecks with
    includeInactive = true returns the updated deck, and [getDeckForUser]
    still resolves the deck for its owner, so its cards, sessions and reviews
    stay within reach. *)
Theorem deactivated_deck_is_only_hidden (undef : UndefinedPolicy) (i : updateDeck.input)
    (context : ActionAPIContext) (user : App.User) (now later : Date) (s : Db)
    (d : VocabDecks.row) :
  keys_ok VocabDecks_table s →
  identity context = Some user →
  updateDeck.schema i = Ok i →
  updateDeck.isActive i = Some false →
  getDeckForUser (updateDeck.id i) (App.id user) s = (Ok d, s) →
  ∃ s' hidden shown,
    updateDeck.action undef i context now s
      = (Ok {| success := true; data := Some (updated_deck i now d) |}, s')
    ∧ VocabDecks.isActive (updated_deck i now d) = false
    ∧ (listDecks.action (decks_request None) context later s').1
      = Ok {| success := true; data := hidden |}
    ∧ (∀ x, x ∈ items hidden → VocabDecks.id x ≠ updateDeck.id i)
    ∧ (listDecks.action (decks_request (Some true)) context later s').1
      = Ok {| success := true; data := shown |}
    ∧ updated_deck i now d ∈ items shown
    ∧ getDeckForUser (updateDeck.id i) (App.id user) s' = (Ok (updated_deck i now d), s').
Proof.
  intros Hkeys Hu Hschema Hoff Hdeck.
  destruct (getDeckForUser_inv _ _ _ _ _ Hdeck) as [_ Hd].
  destruct (Hd d eq_refl) as (Hin & Hid & Hown).
  set (s' := {| decks := (λ r, if decide (VocabDecks.id r = updateDeck.id i)
                               then updated_deck i now d else r) <$> decks s;
                cards := cards s; sessions := sessions s; reviews := reviews s |}).
  assert (Hkeys' : keys_ok VocabDecks_table s').
  { unfold keys_ok; simpl. rewrite <- list_fmap_compose.
    erewrite list_fmap_ext; [exact Hkeys|].
    intros n r _. simpl. destruct (decide _); [simpl; congruence|done]. }
  assert (Hin' : updated_deck i now d ∈ decks s').
  { simpl. apply list_elem_of_fmap. exists d. split; [|done]. by rewrite decide_True. }
  assert (Hfalse : VocabDecks.isActive (updated_deck i now d) = false)
    by (simpl; by rewrite Hoff).
  eexists s', _, _.
  split; [by apply (updateDeck_runs undef i context user now s d)|].
  split; [done|].
  rewrite !(listDecks_runs _ context user) by done. simpl.
  split; [reflexivity|]. split; [|split; [reflexivity|split]].
  - intros x Hx Hxid. apply list_elem_of_filter in Hx as [[_ Hactive] Hx].
    destruct Hkeys' as [Hnd _].
    assert (x = updated_deck i now d) as ->
      by (apply (key_unique VocabDecks.id (decks s')); [done..|simpl; congruence]).
    congruence.
  - apply list_elem_of_filter. split; [done|exact Hin'].
  - rewrite (getDeckForUser_found _ _ _ (updated_deck i now d)) by done.
    rewrite decide_False; [done|]. by intros ?.
Qed.

Lemma deactivated_deck_is_only_hidden_witness :
  ∃ s' hidden,
    (updateDeck.action skip_undefined (deactivate 1) ann 200 demo_db).2 = s'
    ∧ (listDecks.action (decks_request None) ann 210 s').1
      = Ok {| success := true; data := hidden |}
    ∧ (∀ x, x ∈ items hidden → VocabDecks.id x ≠ 1)
    ∧ getDeckForUser 1 "ann" s' = (Ok (updated_deck (deactivate 1) 200 travel_deck), s').
Proof.
  assert (Hkeys : keys_ok VocabDecks_table demo_db)
    by (apply (bool_decide_unpack _); vm_compute; exact I).
  destruct (deactivated_deck_is_only_hidden skip_undefined (deactivate 1) ann
              {| App.id := "ann" |} 200 210 demo_db travel_deck
              Hkeys eq_refl eq_refl eq_refl eq_refl)
    as (s' & hidden & shown & Hrun & _ & Hhidden & Hno & _ & _ & Hmine).
  exists s', hidden. rewrite Hrun. by split_and!.
Defined.

(** ** One table per call *)

(** X3. A call writes to at most one table, the one its name says (the two
    listings to none):
    createDeck and updateDeck leave cards, sessions and reviews as they are,
    upsertCard leaves decks, sessions and reviews, startStudySession and
    completeStudySession leave decks, cards and reviews, logReview leaves
    decks, cards and sessions. *)
Theorem one_table_per_call (undef : UndefinedPolicy) (context : ActionAPIContext)
    (now : Date) (req : Request) (s : Db) :
  match req with
  | CreateDeck _ | UpdateDeck _ =>
      cards (serve undef context now req s) = cards s
      ∧ sessions (serve undef context now req s) = sessions s
      ∧ reviews (serve undef context now req s) = reviews s
  | UpsertCard _ =>
      decks (serve undef context now req s) = decks s
      ∧ sessions (serve undef context now req s) = sessions s
      ∧ reviews (serve undef context now req s) = reviews s
  | StartStudySession _ | CompleteStudySession _ =>
      decks (serve undef context now req s) = decks s
      ∧ cards (serve undef context now req s) = cards s
      ∧ reviews (serve undef context now req s) = reviews s
  | LogReview _ =>
      decks (serve undef context now req s) = decks s
      ∧ cards (serve undef context now req s) = cards s
      ∧ sessions (serve undef context now req s) = sessions s
  | ListDecks _ | ListCards _ => serve undef context now req s = s
  end.
Proof.
  destruct req; unfold serve; unfold_actions; run_handler; by split_and?.
Qed.
